(** * A broken-link checker: shallow embedding of [main.py]

    The program fetches one seed page, collects the targets of its
    anchors, resolves them against the seed URL and probes each one with
    a HEAD request.  This development embeds

    - the pieces of Python's [str] API the program and [urllib.parse]
      rely on (module [PyStr]);
    - [urllib.parse.urlsplit], [urlparse], [urlunsplit], [urlunparse]
      and [urljoin] as shipped with CPython 3.11 (module [Urllib]);
    - the exception hierarchy of [requests.exceptions] and
      [Response.raise_for_status] (module [Requests]);
    - [is_valid_url], [get_all_links], [check_link] and [main] of
      [main.py] over an explicit program state (module [LinkChecker]).

    Python [str] values are modelled by [string]: sequences of code
    points below 256. *)

From Stdlib Require Import ZArith Ascii.
From stdpp Require Import base tactics option list gmap strings pretty.

Local Open Scope Z_scope.

(** ** Results of fallible library calls

    [urlsplit] raises [ValueError] on malformed bracketed hosts, and
    [requests] lets urllib3's [LocationParseError], a [ValueError] as
    well, through on a host such as [a..b]; nothing in [main.py]
    catches a [ValueError], so it travels up to the interpreter. *)

Inductive result (A : Type) : Type :=
| Ok (a : A)
| ValueError (msg : string).
Arguments Ok {A} a.
Arguments ValueError {A} msg.

Definition rbind {A B} (r : result A) (k : A → result B) : result B :=
  match r with
  | Ok a => k a
  | ValueError m => ValueError m
  end.

(** ** Python's [str] methods *)

Module PyStr.

Definition code (c : ascii) : N := N_of_ascii c.

Definition in_range (lo hi : N) (c : ascii) : bool :=
  (lo <=? code c)%N && (code c <=? hi)%N.

(** [c.isascii() and c.isalpha()] *)
Definition is_ascii_alpha (c : ascii) : bool :=
  in_range 65 90 c || in_range 97 122 c.

Definition is_digit (c : ascii) : bool := in_range 48 57 c.

(** [s.isascii()] *)
Fixpoint isascii (s : string) : bool :=
  match s with
  | EmptyString => true
  | String c s' => (code c <? 128)%N && isascii s'
  end.

(** [c.lower()] on the ASCII range *)
Definition lower_char (c : ascii) : ascii :=
  if in_range 65 90 c then ascii_of_N (code c + 32) else c.

Fixpoint lower (s : string) : string :=
  match s with
  | EmptyString => EmptyString
  | String c s' => String (lower_char c) (lower s')
  end.

(** [c in s] for a one-character [c] *)
Fixpoint contains (c : ascii) (s : string) : bool :=
  match s with
  | EmptyString => false
  | String d s' => Ascii.eqb c d || contains c s'
  end.

Fixpoint all_chars (p : ascii → bool) (s : string) : bool :=
  match s with
  | EmptyString => true
  | String c s' => p c && all_chars p s'
  end.

(** [s.startswith(p)] *)
Fixpoint startswith (p s : string) : bool :=
  match p, s with
  | EmptyString, _ => true
  | String a p', String b s' => Ascii.eqb a b && startswith p' s'
  | String _ _, EmptyString => false
  end.

(** [s[:n]] and [s[n:]] for [0 <= n] *)
Fixpoint take (n : nat) (s : string) : string :=
  match n, s with
  | O, _ => EmptyString
  | S n', String c s' => String c (take n' s')
  | S _, EmptyString => EmptyString
  end.

Fixpoint drop (n : nat) (s : string) : string :=
  match n, s with
  | O, _ => s
  | S n', String _ s' => drop n' s'
  | S _, EmptyString => EmptyString
  end.

(** [s.find(c)]: [None] stands for Python's [-1]. *)
Fixpoint find (c : ascii) (s : string) : option nat :=
  match s with
  | EmptyString => None
  | String d s' =>
      if Ascii.eqb c d then Some O else S <$> find c s'
  end.

(** [s.find(c, start)] with [0 <= start] *)
Definition find_from (c : ascii) (start : nat) (s : string) : option nat :=
  (λ i, start + i)%nat <$> find c (drop start s).

(** [s.rfind(c)] *)
Fixpoint rfind (c : ascii) (s : string) : option nat :=
  match s with
  | EmptyString => None
  | String d s' =>
      match rfind c s' with
      | Some i => Some (S i)
      | None => if Ascii.eqb c d then Some O else None
      end
  end.

(** [s.lstrip(chars)], [s.rstrip(chars)], [s.strip(chars)] with the
    character set given as a predicate *)
Fixpoint lstrip (p : ascii → bool) (s : string) : string :=
  match s with
  | EmptyString => EmptyString
  | String c s' => if p c then lstrip p s' else s
  end.

Fixpoint rstrip (p : ascii → bool) (s : string) : string :=
  match s with
  | EmptyString => EmptyString
  | String c s' =>
      match rstrip p s' with
      | EmptyString => if p c then EmptyString else String c EmptyString
      | r => String c r
      end
  end.

Definition strip (p : ascii → bool) (s : string) : string :=
  rstrip p (lstrip p s).

(** [s.replace(c, e)] for a one-character [c] and the empty string [e] *)
Fixpoint remove (c : ascii) (s : string) : string :=
  match s with
  | EmptyString => EmptyString
  | String d s' =>
      if Ascii.eqb c d then remove c s' else String d (remove c s')
  end.

(** [s.split(c, 1)] when [c in s]: the text before and after the first
    occurrence *)
Definition split_once (c : ascii) (s : string) : option (string * string) :=
  (λ i, (take i s, drop (S i) s)) <$> find c s.

(** [s.split(c)] *)
Fixpoint split (c : ascii) (s : string) : list string :=
  match s with
  | EmptyString => [EmptyString]
  | String d s' =>
      if Ascii.eqb c d then EmptyString :: split c s'
      else
        match split c s' with
        | w :: ws => String d w :: ws
        | [] => [String d EmptyString]
        end
  end.

(** [sep.join(l)] *)
Fixpoint join (sep : string) (l : list string) : string :=
  match l with
  | [] => EmptyString
  | [w] => w
  | w :: ws => w +:+ sep +:+ join sep ws
  end.

(** [bool(s)] *)
Definition truthy (s : string) : bool :=
  match s with
  | EmptyString => false
  | String _ _ => true
  end.

(** [s in l] for a list of strings *)
Definition in_list (s : string) (l : list string) : bool :=
  existsb (String.eqb s) l.

(** [c * n] *)
Fixpoint repeat_char (c : ascii) (n : nat) : string :=
  match n with
  | O => EmptyString
  | S n' => String c (repeat_char c n')
  end.

End PyStr.

(** ** [urllib.parse] (CPython 3.11) *)

Module Urllib.
Import PyStr.

Definition uses_relative : list string :=
  [EmptyString; "ftp"; "http"; "gopher"; "nntp"; "imap";
   "wais"; "file"; "https"; "shttp"; "mms";
   "prospero"; "rtsp"; "rtspu"; "sftp";
   "svn"; "svn+ssh"; "ws"; "wss"].

Definition uses_netloc : list string :=
  [EmptyString; "ftp"; "http"; "gopher"; "nntp"; "telnet";
   "imap"; "wais"; "file"; "mms"; "https"; "shttp";
   "snews"; "prospero"; "rtsp"; "rtspu"; "rsync";
   "svn"; "svn+ssh"; "sftp"; "nfs"; "git"; "git+ssh";
   "ws"; "wss"].

Definition uses_params : list string :=
  [EmptyString; "ftp"; "hdl"; "prospero"; "http"; "imap";
   "https"; "shttp"; "rtsp"; "rtspu"; "sip"; "sips";
   "mms"; "sftp"; "tel"].

(** [c in scheme_chars] *)
Definition scheme_char (c : ascii) : bool :=
  is_ascii_alpha c || is_digit c
  || Ascii.eqb c "+" || Ascii.eqb c "-" || Ascii.eqb c ".".

(** [c in _WHATWG_C0_CONTROL_OR_SPACE] *)
Definition c0_control_or_space (c : ascii) : bool := (code c <=? 32)%N.

(** The loop over [_UNSAFE_URL_BYTES_TO_REMOVE] *)
Definition remove_unsafe (s : string) : string :=
  remove "010" (remove "013" (remove "009" s)).

Record SplitResult := mkSplit {
  s_scheme : string; s_netloc : string; s_path : string;
  s_query : string; s_fragment : string }.

Record ParseResult := mkParse {
  scheme : string; netloc : string; path : string;
  params : string; query : string; fragment : string }.

(** [_splitnetloc(url, 2)] *)
Definition _splitnetloc (url : string) (start : nat) : string * string :=
  let step delim c :=
    match find_from c start url with
    | Some w => Nat.min delim w
    | None => delim
    end in
  let delim := step (step (step (String.length url) "/"%char) "?"%char) "#"%char in
  (take (delim - start) (drop start url), drop delim url).

(** [_splitparams(url)] *)
Definition _splitparams (url : string) : string * string :=
  let cut (i : option nat) :=
    match i with
    | Some i => (take i url, drop (S i) url)
    | None => (take (String.length url - 1) url, url)
    end in
  if contains "/" url then
    match find_from ";" (default O (rfind "/" url)) url with
    | None => (url, EmptyString)
    | Some i => cut (Some i)
    end
  else cut (find ";" url).

Section Validators.
(** Two checks of [urlsplit] reach into [ipaddress] and
    [unicodedata]; they are taken as given.
    [_check_bracketed_netloc nl] is [None] when the check of the
    bracketed host returns and [Some msg] when it raises
    [ValueError(msg)], the message being its own or the one of
    [ipaddress.ip_address]; [nfkc_netloc_ok] is [true] when the NFKC
    check passes. *)
Variable _check_bracketed_netloc : string → option string.
Variable nfkc_netloc_ok : string → bool.

(** [_checknetloc(netloc)] *)
Definition _checknetloc (nl : string) : result unit :=
  if negb (truthy nl) || isascii nl then Ok tt
  else if nfkc_netloc_ok nl then Ok tt
  else ValueError
         ("netloc '" +:+ nl +:+ "' contains invalid characters under NFKC normalization").

(** [urlsplit(url, scheme)] with [allow_fragments=True] *)
Definition urlsplit (url scheme : string) : result SplitResult :=
  let url := lstrip c0_control_or_space url in
  let scheme := strip c0_control_or_space scheme in
  let url := remove_unsafe url in
  let scheme := remove_unsafe scheme in
  let '(scheme, url) :=
    match find ":" url, url with
    | Some (S i), String c0 _ =>
        if is_ascii_alpha c0 && all_chars scheme_char (take (S i) url)
        then (lower (take (S i) url), drop (S (S i)) url)
        else (scheme, url)
    | _, _ => (scheme, url)
    end in
  rbind
    (if String.eqb (take 2 url) "//" then
       let '(nl, rest) := _splitnetloc url 2 in
       if (contains "[" nl && negb (contains "]" nl))
          || (contains "]" nl && negb (contains "[" nl))
       then ValueError "Invalid IPv6 URL"
       else if contains "[" nl && contains "]" nl
       then match _check_bracketed_netloc nl with
            | Some msg => ValueError msg
            | None => Ok (nl, rest)
            end
       else Ok (nl, rest)
     else Ok (EmptyString, url))
    (λ '(nl, url),
      let '(url, frag) := default (url, EmptyString) (split_once "#" url) in
      let '(url, qry) := default (url, EmptyString) (split_once "?" url) in
      rbind (_checknetloc nl)
        (λ _, Ok (mkSplit scheme nl url qry frag))).

(** [urlparse(url, scheme)] *)
Definition urlparse (url scheme : string) : result ParseResult :=
  rbind (urlsplit url scheme)
    (λ sr,
      let '(url, prm) :=
        if in_list (s_scheme sr) uses_params && contains ";" (s_path sr)
        then _splitparams (s_path sr)
        else (s_path sr, EmptyString) in
      Ok (mkParse (s_scheme sr) (s_netloc sr) url prm
            (s_query sr) (s_fragment sr))).

(** [urlunsplit((scheme, netloc, url, query, fragment))] *)
Definition urlunsplit (scheme netloc url query fragment : string) : string :=
  let url :=
    if truthy netloc
       || (truthy scheme && in_list scheme uses_netloc
           && negb (String.eqb (take 2 url) "//"))
    then
      let url :=
        if truthy url && negb (String.eqb (take 1 url) "/")
        then "/" +:+ url else url in
      "//" +:+ netloc +:+ url
    else url in
  let url := if truthy scheme then scheme +:+ ":" +:+ url else url in
  let url := if truthy query then url +:+ "?" +:+ query else url in
  if truthy fragment then url +:+ "#" +:+ fragment else url.

(** [urlunparse((scheme, netloc, url, params, query, fragment))] *)
Definition urlunparse (p : ParseResult) : string :=
  let url :=
    if truthy (params p) then path p +:+ ";" +:+ params p else path p in
  urlunsplit (scheme p) (netloc p) url (query p) (fragment p).

(** [segments[1:-1] = filter(None, segments[1:-1])] *)
Definition drop_inner_empty (segments : list string) : list string :=
  match segments with
  | [] => []
  | [x] => [x]
  | x :: rest =>
      x :: List.filter truthy (removelast rest) ++ [List.last rest EmptyString]
  end.

(** The loop building [resolved_path] *)
Fixpoint resolve_segments (segments resolved_path : list string)
  : list string :=
  match segments with
  | [] => resolved_path
  | seg :: segs =>
      if String.eqb seg ".." then
        resolve_segments segs (removelast resolved_path)
      else if String.eqb seg "." then
        resolve_segments segs resolved_path
      else resolve_segments segs (resolved_path ++ [seg])
  end.

(** [urljoin(base, url)] *)
Definition urljoin (base url : string) : result string :=
  if negb (truthy base) then Ok url
  else if negb (truthy url) then Ok base
  else
    rbind (urlparse base EmptyString) (λ b,
    rbind (urlparse url (scheme b)) (λ u,
      if negb (String.eqb (scheme u) (scheme b))
         || negb (in_list (scheme u) uses_relative)
      then Ok url
      else if in_list (scheme u) uses_netloc && truthy (netloc u)
      then Ok (urlunparse u)
      else
        let nl := if in_list (scheme u) uses_netloc
                  then netloc b else netloc u in
        if negb (truthy (path u)) && negb (truthy (params u)) then
          let qry := if negb (truthy (query u)) then query b else query u in
          Ok (urlunparse
                (mkParse (scheme u) nl (path b) (params b) qry (fragment u)))
        else
          let base_parts := split "/" (path b) in
          let base_parts :=
            if negb (String.eqb (List.last base_parts EmptyString) EmptyString)
            then removelast base_parts else base_parts in
          let segments :=
            if String.eqb (take 1 (path u)) "/"
            then split "/" (path u)
            else drop_inner_empty (base_parts ++ split "/" (path u)) in
          let resolved_path := resolve_segments segments [] in
          let resolved_path :=
            if in_list (List.last segments EmptyString) ["."; ".."]
            then resolved_path ++ [EmptyString] else resolved_path in
          let joined := join "/" resolved_path in
          Ok (urlunparse
                (mkParse (scheme u) nl
                   (if truthy joined then joined else "/")
                   (params u) (query u) (fragment u))))).

End Validators.
End Urllib.

(** ** [requests]: responses, exceptions, [raise_for_status] *)

Module Requests.

(** The classes of [requests.exceptions]; every exception the library
    raises derives from [RequestException]. *)
Inductive exc_class : Set :=
| RequestException
| HTTPError
| ConnectionError
| ProxyError
| SSLError
| Timeout
| ConnectTimeout
| ReadTimeout
| URLRequired
| TooManyRedirects
| MissingSchema
| InvalidSchema
| InvalidURL
| InvalidHeader
| ChunkedEncodingError
| ContentDecodingError
| RetryError.

(** [isinstance(e, Timeout)]: [ConnectTimeout] and [ReadTimeout]
    derive from [Timeout]. *)
Definition is_Timeout (c : exc_class) : bool :=
  match c with
  | Timeout | ConnectTimeout | ReadTimeout => true
  | _ => false
  end.

Definition is_TooManyRedirects (c : exc_class) : bool :=
  match c with
  | TooManyRedirects => true
  | _ => false
  end.

(** [isinstance(e, ConnectionError)]: [ProxyError], [SSLError] and
    [ConnectTimeout] derive from [ConnectionError]. *)
Definition is_ConnectionError (c : exc_class) : bool :=
  match c with
  | ConnectionError | ProxyError | SSLError | ConnectTimeout => true
  | _ => false
  end.

(** An exception object: its class and [str(e)]. *)
Record exn := mkExn { exc_cls : exc_class; exc_str : string }.

Record Response := mkResponse {
  status_code : Z;
  reason : string;
  text : string;
  url : string }.

(** What a call of [requests.get] or [requests.head] ends in: a
    response, an exception of the [RequestException] family, or an
    exception from outside that family.  The library wraps most
    failures, but not all: urllib3's [LocationParseError] (a
    [ValueError], raised for a host with an empty or overlong label) is
    re-raised as it is.  [Escaped msg] stands for such an exception,
    with [msg] its [str]. *)
Inductive outcome :=
| Responded (r : Response)
| Raised (e : exn)
| Escaped (msg : string).

(** [Response.raise_for_status]: [Some e] when it raises [e]. *)
Definition raise_for_status (r : Response) : option exn :=
  if (400 <=? status_code r) && (status_code r <? 500) then
    Some (mkExn HTTPError
            (pretty (status_code r) +:+ " Client Error: " +:+ reason r
             +:+ " for url: " +:+ url r))
  else if (500 <=? status_code r) && (status_code r <? 600) then
    Some (mkExn HTTPError
            (pretty (status_code r) +:+ " Server Error: " +:+ reason r
             +:+ " for url: " +:+ url r))
  else None.

End Requests.

(** ** The program *)

Module LinkChecker.
Import PyStr Urllib Requests.

(** *** Observable actions

    Network calls are recorded together with what came back, so that a
    trace tells both that a request was issued and how it ended. *)

Inductive level : Set := ERROR | WARNING | INFO.

Inductive event :=
| Get (target : string) (o : outcome)    (* requests.get *)
| Head (target : string) (o : outcome)   (* requests.head *)
| Log (lv : level) (msg : string)        (* logging.error/warning/info *)
| Print (line : string).                 (* print *)

(** *** The environment

    The network answers as a function of the target and of everything
    that happened before.  Parsing HTML is BeautifulSoup's business:
    [find_all_a_href] gives, for a page text, the [href] values of
    [soup.find_all('a', href=True)] in document order.  Iterating over
    a Python set visits its members once each, in an order the program
    does not control: [set_iter]. *)

Record World := mkWorld {
  check_bracketed_netloc : string → option string;
  nfkc_netloc_ok : string → bool;
  requests_get : list event → string → outcome;
  requests_head : list event → string → outcome;
  find_all_a_href : string → list string;
  set_iter : gset string → list string;
  set_iter_perm : ∀ s, set_iter s ≡ₚ elements s }.

(** *** Program state: the module-level [processed_urls] and the trace *)

Record state := mkState {
  processed_urls : gset string;
  trace : list event }.

(** State of a freshly started interpreter: [processed_urls = set()]. *)
Definition initial_state : state := mkState ∅ [].

Definition M (A : Type) : Type := state → result A * state.

Definition ret {A} (a : A) : M A := λ st, (Ok a, st).

Definition bind {A B} (m : M A) (k : A → M B) : M B :=
  λ st,
    match m st with
    | (Ok a, st') => k a st'
    | (ValueError e, st') => (ValueError e, st')
    end.

Definition lift {A} (r : result A) : M A := λ st, (r, st).

Definition emit (e : event) : M unit :=
  λ st, (Ok tt, mkState (processed_urls st) (trace st ++ [e])).

Definition get_state : M state := λ st, (Ok st, st).

Definition mark (u : string) : M unit :=
  λ st, (Ok tt, mkState ({[u]} ∪ processed_urls st) (trace st)).

Notation "x <- c ;; k" := (bind c (λ x, k))
  (at level 100, c at next level, k at level 200, right associativity).
Notation "c ;; k" := (bind c (λ _, k))
  (at level 100, k at level 200, right associativity).

Definition newline : string := String "010" EmptyString.

Section Program.
Variable w : World.

(** [requests.get(target, headers=HEADERS, timeout=10)] and
    [requests.head(target, headers=HEADERS, timeout=10,
    allow_redirects=True)]: one call each, answered by the world. *)
Definition http_get (target : string) : M outcome :=
  st <- get_state ;;
  let o := requests_get w (trace st) target in
  emit (Get target o) ;; ret o.

Definition http_head (target : string) : M outcome :=
  st <- get_state ;;
  let o := requests_head w (trace st) target in
  emit (Head target o) ;; ret o.

Definition is_valid_url (url : string) : result bool :=
  rbind (urlparse (check_bracketed_netloc w) (nfkc_netloc_ok w) url EmptyString)
    (λ parsed, Ok (truthy (scheme parsed) && truthy (netloc parsed))).

(** The test of line 48. *)
Definition skipped_prefix (href : string) : bool :=
  startswith "#" href || startswith "mailto:" href
  || startswith "javascript:" href.

(** Body of the [for] loop of [get_all_links] for one [href]:
    [Some u] when [u] is added to [links_to_check], [None] when the
    reference is passed over. *)
Definition normalize_href (base_url href : string) : result (option string) :=
  if skipped_prefix href then Ok None
  else
    rbind (urljoin (check_bracketed_netloc w) (nfkc_netloc_ok w) base_url href)
      (λ absolute_url,
        rbind (is_valid_url absolute_url)
          (λ valid, Ok (if valid then Some absolute_url else None))).

(** The [for] loop of [get_all_links]. *)
Fixpoint collect_links (base_url : string) (hrefs : list string)
    (links_to_check : gset string) : result (gset string) :=
  match hrefs with
  | [] => Ok links_to_check
  | href :: rest =>
      rbind (normalize_href base_url href)
        (λ o,
          collect_links base_url rest
            (match o with
             | Some absolute_url => {[absolute_url]} ∪ links_to_check
             | None => links_to_check
             end))
  end.

Definition get_all_links (base_url : string) : M (gset string) :=
  let on_error (e : exn) : M (gset string) :=
    emit (Log ERROR ("Gagal mengambil " +:+ base_url +:+ ": " +:+ exc_str e)) ;;
    ret ∅ in
  o <- http_get base_url ;;
  match o with
  | Raised e => on_error e
  | Escaped msg => lift (ValueError msg)
  | Responded response =>
      match raise_for_status response with
      | Some e => on_error e
      | None =>
          lift (collect_links base_url (find_all_a_href w (text response)) ∅)
      end
  end.

Definition check_link (url : string) : M (option Z * string) :=
  st <- get_state ;;
  if bool_decide (url ∈ processed_urls st) then
    ret (None, "Skipped (Already Checked)")
  else
    mark url ;;
    o <- http_head url ;;
    match o with
    | Responded response =>
        if 400 <=? status_code response then
          ret (Some (status_code response),
               "Client/Server Error (" +:+ reason response +:+ ")")
        else ret (Some (status_code response), "OK")
    | Raised e =>
        if is_Timeout (exc_cls e) then ret (None, "Timeout")
        else if is_TooManyRedirects (exc_cls e) then
          ret (None, "Too Many Redirects")
        else if is_ConnectionError (exc_cls e) then
          ret (None, "Connection Error")
        else ret (None, "Error Lainnya: " +:+ exc_str e)
    | Escaped msg => lift (ValueError msg)
    end.

(** The [for i, link in enumerate(links_to_check)] loop of [main];
    [i] is the index of the head of [links], [total] is
    [len(links_to_check)]. *)
Fixpoint probe_links (total i : nat) (links : list string)
    (broken_links : list (string * string)) (ok_links : Z)
  : M (list (string * string) * Z) :=
  match links with
  | [] => ret (broken_links, ok_links)
  | link :: rest =>
      emit (Print ("  (" +:+ pretty (S i) +:+ "/" +:+ pretty total
                   +:+ ") Memeriksa: " +:+ take 75 link +:+ "...")) ;;
      r <- check_link link ;;
      match r with
      | (None, message) =>
          emit (Log WARNING ("  -> RUSAK: " +:+ link +:+ " (Alasan: "
                             +:+ message +:+ ")")) ;;
          probe_links total (S i) rest
            (broken_links ++ [(link, message)]) ok_links
      | (Some status_code, message) =>
          if 400 <=? status_code then
            emit (Log WARNING ("  -> RUSAK: " +:+ link +:+ " (Status: "
                               +:+ pretty status_code +:+ " " +:+ message
                               +:+ ")")) ;;
            probe_links total (S i) rest
              (broken_links ++ [(link, "Status " +:+ pretty status_code)])
              ok_links
          else probe_links total (S i) rest broken_links (ok_links + 1)
      end
  end.

(** The lines of the final report, in printing order. *)
Definition report_lines (base_url : string) (total : nat) (ok_links : Z)
    (broken_links : list (string * string)) : list string :=
  [ newline +:+ repeat_char "=" 30;
    "--- LAPORAN PEMINDAIAN SELESAI ---";
    repeat_char "=" 30;
    "Halaman Dipindai : " +:+ base_url;
    "Total Tautan Diperiksa : " +:+ pretty total;
    "Tautan Berfungsi : " +:+ pretty ok_links;
    "Tautan Rusak/Error : " +:+ pretty (length broken_links) ]
  ++ match broken_links with
     | [] => []
     | _ :: _ =>
         (newline +:+ "--- Daftar Tautan Rusak ---")
         :: map (λ '(link, reason),
                  "- " +:+ link +:+ newline +:+ "  (Alasan: " +:+ reason +:+ ")")
              broken_links
     end.

Fixpoint print_all (lines : list string) : M unit :=
  match lines with
  | [] => ret tt
  | l :: ls => emit (Print l) ;; print_all ls
  end.

Definition main (base_url : string) : M unit :=
  valid <- lift (is_valid_url base_url) ;;
  if negb valid then
    emit (Log ERROR ("URL tidak valid: " +:+ base_url
                     +:+ ". Pastikan menyertakan 'http://' atau 'https://'."))
  else
    emit (Log INFO ("Memulai pemindaian di: " +:+ base_url)) ;;
    links_to_check <- get_all_links base_url ;;
    if bool_decide (links_to_check = ∅) then
      emit (Log WARNING
              "Tidak ada tautan eksternal yang ditemukan di halaman tersebut.")
    else
      emit (Log INFO ("Menemukan " +:+ pretty (size links_to_check)
                      +:+ " tautan unik. Memulai pemeriksaan...")) ;;
      r <- probe_links (size links_to_check) 0 (set_iter w links_to_check) [] 0 ;;
      print_all (report_lines base_url (size links_to_check) r.2 r.1) ;;
      emit (Log INFO "Pemeriksaan selesai.").

End Program.
(** *** Vocabulary for the statements *)

(** Number of HEAD requests sent to [u] in a trace. *)
Fixpoint head_count (u : string) (tr : list event) : nat :=
  match tr with
  | [] => 0
  | Head t _ :: tr' => (if String.eqb t u then 1 else 0) + head_count u tr'
  | _ :: tr' => head_count u tr'
  end.

Definition is_network (e : event) : bool :=
  match e with
  | Get _ _ | Head _ _ => true
  | _ => false
  end.

Definition is_head (e : event) : bool :=
  match e with
  | Head _ _ => true
  | _ => false
  end.

Definition is_print (e : event) : bool :=
  match e with
  | Print _ => true
  | _ => false
  end.

Definition is_warning (e : event) : bool :=
  match e with
  | Log WARNING _ => true
  | _ => false
  end.

(** What a scan did, as far as its outcome goes: the probes it sent,
    the lines it printed and the warnings it logged. *)
Definition scan_outcome (tr : list event)
  : list event * list event * list event :=
  (List.filter is_head tr, List.filter is_print tr, List.filter is_warning tr).

(** The network calls of a trace, in order. *)
Definition network_calls (tr : list event) : list event :=
  List.filter is_network tr.

(** The state after [logging.info("Memulai pemindaian di: ...")]: the
    point where [get_all_links] is entered. *)
Definition started (base_url : string) (st : state) : state :=
  mkState (processed_urls st)
    (trace st ++ [Log INFO ("Memulai pemindaian di: " +:+ base_url)]).

Definition no_links_warning : event :=
  Log WARNING "Tidak ada tautan eksternal yang ditemukan di halaman tersebut.".

Definition invalid_url_error (base_url : string) : event :=
  Log ERROR ("URL tidak valid: " +:+ base_url
             +:+ ". Pastikan menyertakan 'http://' atau 'https://'.").

Definition fetch_error_log (base_url : string) (e : exn) : event :=
  Log ERROR ("Gagal mengambil " +:+ base_url +:+ ": " +:+ exc_str e).

(** The message [check_link] gives for a [RequestException]: the
    first [except] clause that matches decides. *)
Definition exception_message (e : exn) : string :=
  if is_Timeout (exc_cls e) then "Timeout"
  else if is_TooManyRedirects (exc_cls e) then "Too Many Redirects"
  else if is_ConnectionError (exc_cls e) then "Connection Error"
  else "Error Lainnya: " +:+ exc_str e.

(** How [check_link] ends for a probe that ended with [o]: with a pair
    handed back, or with the exception that no clause catches. *)
Definition probe_result (o : outcome) : result (option Z * string) :=
  match o with
  | Responded r =>
      if 400 <=? status_code r
      then Ok (Some (status_code r),
               "Client/Server Error (" +:+ reason r +:+ ")")
      else Ok (Some (status_code r), "OK")
  | Raised e => Ok (None, exception_message e)
  | Escaped msg => ValueError msg
  end.

(** A probe that is reported as failed: no response was obtained, or
    the status is 400 or more; the reason is the text the report gives
    for it. *)
Definition failure_reason (o : outcome) : option string :=
  match o with
  | Responded r =>
      if 400 <=? status_code r
      then Some ("Status " +:+ pretty (status_code r)) else None
  | Raised e => Some (exception_message e)
  | Escaped _ => None
  end.

(** The seed fetch is handled as failed when [requests.get] raises a
    [RequestException] or [raise_for_status] does. *)
Definition fetch_failure (o : outcome) : option exn :=
  match o with
  | Raised e => Some e
  | Responded r => raise_for_status r
  | Escaped _ => None
  end.

(** No call of [requests.head] lets an exception from outside the
    [RequestException] family through. *)
Definition heads_never_escape (w : World) : Prop :=
  ∀ tr target msg, requests_head w tr target ≠ Escaped msg.

(** Registry invariant: a URL that was sent a HEAD request is marked,
    and none was sent more than one. *)
Definition probed_once (st : state) : Prop :=
  ∀ u, (head_count u (trace st) ≤ 1)%nat
       ∧ ((0 < head_count u (trace st))%nat → u ∈ processed_urls st).

(** [m] keeps the property [P] of states. *)
Definition preserves {A} (P : state → Prop) (m : M A) : Prop :=
  ∀ st, P st → P (m st).2.

(** The progress line printed before the probe of [link]. *)
Definition progress_line (total i : nat) (link : string) : event :=
  Print ("  (" +:+ pretty (S i) +:+ "/" +:+ pretty total
         +:+ ") Memeriksa: " +:+ take 75 link +:+ "...").

Definition found_log (n : nat) : event :=
  Log INFO ("Menemukan " +:+ pretty n +:+ " tautan unik. Memulai pemeriksaan...").

Definition done_log : event := Log INFO "Pemeriksaan selesai.".

(** The warning logged for a link whose probe gave no status. *)
Definition broken_log (link message : string) : event :=
  Log WARNING ("  -> RUSAK: " +:+ link +:+ " (Alasan: " +:+ message +:+ ")").

(** The line of the report's broken-links list for one entry. *)
Definition broken_line (link reason : string) : string :=
  "- " +:+ link +:+ newline +:+ "  (Alasan: " +:+ reason +:+ ")".

(** *** Concrete environments *)

(** A world whose answers do not depend on history; sets are iterated
    in the order of [elements]. *)
Definition simple_world (get head : string → outcome)
    (hrefs : list string) : World :=
  mkWorld (λ _, None) (λ _, true) (λ _, get) (λ _, head) (λ _, hrefs)
    elements (λ s, Permutation_refl (elements s)).

Definition page (status : Z) (u : string) : outcome :=
  Responded (mkResponse status "OK" "<html>" u).

Definition site : string := "https://site.test".

(** Scenario 1 of the specification; every probe finds the link. *)
Definition scenario1 : World :=
  simple_world (page 200) (page 200)
    ["/about"; "#top"; "mailto:a@b.com"; "https://other.test/ok"].

(** A page with one telephone link. *)
Definition tel_page : World :=
  simple_world (page 200) (page 200) ["tel:123"].

(** A page with one FTP link. *)
Definition ftp_page : World :=
  simple_world (page 200) (page 200) ["ftp://files.test/x"].

(** A page without anchors. *)
Definition empty_page : World :=
  simple_world (page 200) (page 200) [].

(** A seed answered with [300 Multiple Choices] and a body that lists
    one alternative. *)
Definition multiple_choices : World :=
  simple_world (page 300) (page 200) ["/a"].

(** The seed host cannot be reached. *)
Definition unreachable : World :=
  simple_world (λ _, Raised (mkExn ConnectionError "Connection refused"))
    (page 200) [].

(** The [str] of the [LocationParseError] urllib3 raises for the host
    [a..b]. *)
Definition label_error : string :=
  "Failed to parse: 'a..b', label empty or too long".

(** A page with one link whose host has an empty label: the link
    passes [is_valid_url], and [requests.head] lets urllib3's parse
    error through for it. *)
Definition empty_label_page : World :=
  simple_world (page 200)
    (λ u, if String.eqb u "http://a..b/" then Escaped label_error
          else page 200 u)
    ["http://a..b/"].

(** A seed whose host has an empty label: [requests.get] lets the same
    error through. *)
Definition empty_label_seed : World :=
  simple_world (λ _, Escaped label_error) (page 200) [].

(** One link; its probe answers 404, or times out. *)
Definition one_link (head : outcome) : World :=
  simple_world (page 200) (λ _, head) ["/a"].

(** *** Vocabulary for the further properties *)

Definition is_get (e : event) : bool :=
  match e with
  | Get _ _ => true
  | _ => false
  end.

Definition skip_message : string := "Skipped (Already Checked)".

(** What the probing loop adds to the trace when every link is already
    marked: per link, its progress line and the warning. *)
Fixpoint skipped_events (total i : nat) (links : list string) : list event :=
  match links with
  | [] => []
  | link :: rest =>
      progress_line total i link :: broken_log link skip_message
      :: skipped_events total (S i) rest
  end.

(** A page whose second anchor has an unbalanced bracket in its host. *)
Definition bad_bracket_page : World :=
  simple_world (page 200) (page 200) ["/ok"; "http://["; "/never"].

(** A page with an empty reference and the same relative link twice. *)
Definition repeated_links_page : World :=
  simple_world (page 200) (page 200) ["/a"; "/a"; EmptyString].

(** The links of scenario 1 and the state in which its probing starts. *)
Definition scenario1_set : gset string :=
  {[ "https://site.test/about"; "https://other.test/ok" ]}.

Definition scenario1_fetched : state :=
  mkState ∅
    [Log INFO "Memulai pemindaian di: https://site.test";
     Get site (page 200 site)].

(** The entry of [broken_links] for a skipped link. *)
Definition skip_entry (link : string) : string * string :=
  (link, skip_message).

(** *** Strings *)

Lemma startswith_app (p s : string) : startswith p (p +:+ s) = true.
Proof.
  induction p as [|c p IH]; simpl; [done|].
  by rewrite Ascii.eqb_refl, IH.
Qed.

Lemma startswith_inv (p s : string) :
  startswith p s = true → ∃ rest, s = p +:+ rest.
Proof.
  revert s; induction p as [|c p IH]; intros s H; simpl in *.
  - by exists s.
  - destruct s as [|d s]; [done|].
    apply andb_prop in H as [Hc Hs].
    apply Ascii.eqb_eq in Hc as ->.
    destruct (IH _ Hs) as [rest ->]. by exists rest.
Qed.

Lemma skipped_prefix_spec (href : string) :
  skipped_prefix href = true ↔
  ∃ p rest, p ∈ ["#"; "mailto:"; "javascript:"] ∧ href = p +:+ rest.
Proof.
  unfold skipped_prefix. split.
  - intros H. apply orb_prop in H as [H|H]; [apply orb_prop in H as [H|H]|];
      apply startswith_inv in H as [rest ->];
      eexists _, rest; (split; [|reflexivity]); set_solver.
  - intros (p & rest & Hp & ->).
    rewrite !elem_of_cons, elem_of_nil in Hp.
    destruct Hp as [-> | [-> | [-> | []]]];
      rewrite ?startswith_app, ?orb_true_r; done.
Qed.

(** *** Traces *)

Lemma head_count_app (u : string) (t1 t2 : list event) :
  head_count u (t1 ++ t2) = (head_count u t1 + head_count u t2)%nat.
Proof.
  induction t1 as [|e t1 IH]; simpl; [done|].
  destruct e; rewrite ?IH; lia.
Qed.

(** *** [check_link] *)

Lemma check_link_skipped (w : World) (url : string) (st : state) :
  url ∈ processed_urls st →
  check_link w url st = (Ok (None, "Skipped (Already Checked)"), st).
Proof.
  intros Hin. unfold check_link, bind, get_state, ret.
  by rewrite bool_decide_eq_true_2.
Qed.

Lemma check_link_fresh (w : World) (url : string) (st : state) :
  url ∉ processed_urls st →
  check_link w url st =
    (probe_result (requests_head w (trace st) url),
     mkState ({[url]} ∪ processed_urls st)
       (trace st ++ [Head url (requests_head w (trace st) url)])).
Proof.
  intros Hnin.
  unfold check_link, http_head, bind, get_state, mark, emit, ret, lift.
  rewrite bool_decide_eq_false_2 by done. cbn [processed_urls trace].
  destruct (requests_head w (trace st) url) as [r|e|msg];
    cbn [probe_result]; [| |done].
  - by destruct (400 <=? status_code r).
  - unfold exception_message.
    by destruct (is_Timeout (exc_cls e)), (is_TooManyRedirects (exc_cls e)),
         (is_ConnectionError (exc_cls e)).
Qed.

(** C2: a probe that obtains a response is classified by the 400
    boundary alone: below 400 the result is the status with "OK", from
    400 on it is the status with the client/server error text carrying
    the reason phrase. *)
Theorem check_link_status_boundary (w : World) (url : string) (st : state)
    (r : Response) :
  url ∉ processed_urls st →
  requests_head w (trace st) url = Responded r →
  (status_code r < 400 →
     (check_link w url st).1 = Ok (Some (status_code r), "OK"))
  ∧ (400 ≤ status_code r →
     (check_link w url st).1 =
       Ok (Some (status_code r),
           "Client/Server Error (" +:+ reason r +:+ ")")).
Proof.
  intros Hnin Hr. rewrite check_link_fresh by done. rewrite Hr.
  cbn [fst probe_result]. split; intros Hs.
  - by rewrite (proj2 (Z.leb_gt 400 (status_code r))) by lia.
  - by rewrite (proj2 (Z.leb_le 400 (status_code r))) by lia.
Qed.

Lemma check_link_status_boundary_witness :
  (check_link (one_link (Responded (mkResponse 399 "Odd" "" "u")))
     "https://site.test/a" initial_state).1 = Ok (Some 399, "OK")
  ∧ (check_link (one_link (Responded (mkResponse 400 "Bad Request" "" "u")))
       "https://site.test/a" initial_state).1
    = Ok (Some 400, "Client/Server Error (Bad Request)").
Proof.
  split.
  - apply (check_link_status_boundary
             (one_link (Responded (mkResponse 399 "Odd" "" "u")))
             "https://site.test/a" initial_state
             (mkResponse 399 "Odd" "" "u")); [set_solver | reflexivity | reflexivity].
  - apply (check_link_status_boundary
             (one_link (Responded (mkResponse 400 "Bad Request" "" "u")))
             "https://site.test/a" initial_state
             (mkResponse 400 "Bad Request" "" "u")); [set_solver | reflexivity | ].
    vm_compute. discriminate.
Defined.

(** *** Normalisation of one reference *)

(** C3, counterexample: "tel:123" carries none of the three prefixes
    and is rejected all the same. *)
Lemma tel_link_rejected_without_prefix :
  ¬ (normalize_href tel_page site "tel:123" = Ok None
     ↔ skipped_prefix "tel:123" = true).
Proof.
  intros [H _].
  assert (skipped_prefix "tel:123" = true) as Habs
    by (apply H; vm_compute; reflexivity).
  vm_compute in Habs. discriminate.
Qed.

(** C3, amended: a reference that starts with "#", "mailto:" or
    "javascript:" is rejected whatever follows; any other reference is
    rejected exactly when the URL it resolves to fails the validity
    test (no scheme or no network location). *)
Theorem normalize_rejects_iff (w : World) (base_url href : string) :
  (∀ p rest, p ∈ ["#"; "mailto:"; "javascript:"] →
     normalize_href w base_url (p +:+ rest) = Ok None)
  ∧ (normalize_href w base_url href = Ok None ↔
       skipped_prefix href = true
       ∨ ∃ absolute_url,
           urljoin (check_bracketed_netloc w) (nfkc_netloc_ok w) base_url href
             = Ok absolute_url
           ∧ is_valid_url w absolute_url = Ok false).
Proof.
  split.
  - intros p rest Hp. unfold normalize_href.
    rewrite (proj2 (skipped_prefix_spec (p +:+ rest))); [done|eauto].
  - unfold normalize_href.
    destruct (skipped_prefix href); [by split; [left|]|].
    destruct (urljoin _ _ base_url href) as [a|m]; cbn [rbind].
    + destruct (is_valid_url w a) as [[]|m'] eqn:Hv; cbn [rbind].
      * split; [done|]. intros [?|(b & [= <-] & Hb)]; congruence.
      * split; [|done]. intros _. right. by exists a.
      * split; [done|]. intros [?|(b & [= <-] & Hb)]; congruence.
    + split; [done|]. by intros [?|(b & ? & _)].
Qed.

Lemma normalize_rejects_iff_witness :
  normalize_href tel_page site ("mailto:" +:+ "a@b.com") = Ok None
  ∧ (normalize_href tel_page site "tel:123" = Ok None ↔
       skipped_prefix "tel:123" = true
       ∨ ∃ absolute_url,
           urljoin (check_bracketed_netloc tel_page) (nfkc_netloc_ok tel_page)
             site "tel:123" = Ok absolute_url
           ∧ is_valid_url tel_page absolute_url = Ok false).
Proof.
  split.
  - apply (proj1 (normalize_rejects_iff tel_page site "tel:123")).
    vm_compute. right. left.
  - apply (proj2 (normalize_rejects_iff tel_page site "tel:123")).
Defined.

(** *** An invalid seed *)

Lemma main_invalid (w : World) (base_url : string) (st : state) :
  is_valid_url w base_url = Ok false →
  main w base_url st =
    (Ok tt, mkState (processed_urls st) (trace st ++ [invalid_url_error base_url])).
Proof. intros Hv. unfold main, bind, lift. by rewrite Hv. Qed.

Lemma network_calls_app (t1 t2 : list event) :
  network_calls (t1 ++ t2) = network_calls t1 ++ network_calls t2.
Proof. apply List.filter_app. Qed.

(** C9: a seed that fails the validity test ends the scan with the
    invalid-URL error and nothing else: no request is sent. *)
Theorem invalid_seed_no_network (w : World) (base_url : string) (st : state) :
  is_valid_url w base_url = Ok false →
  main w base_url st =
    (Ok tt, mkState (processed_urls st) (trace st ++ [invalid_url_error base_url]))
  ∧ network_calls (trace (main w base_url st).2) = network_calls (trace st).
Proof.
  intros Hv. rewrite main_invalid by done. split; [done|].
  cbn [snd trace]. rewrite network_calls_app. cbn. by rewrite app_nil_r.
Qed.

Lemma invalid_seed_no_network_witness :
  is_valid_url scenario1 "not-a-url" = Ok false
  ∧ main scenario1 "not-a-url" initial_state =
      (Ok tt, mkState ∅ [invalid_url_error "not-a-url"])
  ∧ network_calls (trace (main scenario1 "not-a-url" initial_state).2) = [].
Proof.
  split; [vm_compute; reflexivity|].
  apply (invalid_seed_no_network scenario1 "not-a-url" initial_state).
  vm_compute; reflexivity.
Defined.

(** *** [get_all_links] *)

Lemma get_all_links_fetched (w : World) (base_url : string) (st : state)
    (r : Response) :
  requests_get w (trace st) base_url = Responded r →
  raise_for_status r = None →
  get_all_links w base_url st =
    (collect_links w base_url (find_all_a_href w (text r)) ∅,
     mkState (processed_urls st) (trace st ++ [Get base_url (Responded r)])).
Proof.
  intros Hr Hs. unfold get_all_links, http_get, bind, get_state, emit, ret, lift.
  cbn [trace processed_urls]. by rewrite Hr, Hs.
Qed.

Lemma get_all_links_failed (w : World) (base_url : string) (st : state)
    (e : exn) :
  fetch_failure (requests_get w (trace st) base_url) = Some e →
  get_all_links w base_url st =
    (Ok ∅,
     mkState (processed_urls st)
       (trace st ++ [Get base_url (requests_get w (trace st) base_url);
                     fetch_error_log base_url e])).
Proof.
  intros Hf. unfold get_all_links, http_get, bind, get_state, emit, ret, lift.
  cbn [trace processed_urls].
  destruct (requests_get w (trace st) base_url) as [r|e'|msg]; cbn in Hf;
    [| |done].
  - rewrite Hf. cbn [trace processed_urls]. by rewrite <- app_assoc.
  - injection Hf as ->. cbn [trace processed_urls]. by rewrite <- app_assoc.
Qed.

(** An exception from outside the [RequestException] family passes the
    [except] clause of [get_all_links]. *)
Lemma get_all_links_escaped (w : World) (base_url : string) (st : state)
    (msg : string) :
  requests_get w (trace st) base_url = Escaped msg →
  get_all_links w base_url st =
    (ValueError msg,
     mkState (processed_urls st) (trace st ++ [Get base_url (Escaped msg)])).
Proof.
  intros Hr. unfold get_all_links, http_get, bind, get_state, emit, ret, lift.
  cbn [trace processed_urls]. by rewrite Hr.
Qed.

(** [get_all_links] never touches the registry. *)
Lemma get_all_links_registry (w : World) (base_url : string) (st : state) :
  processed_urls (get_all_links w base_url st).2 = processed_urls st.
Proof.
  destruct (fetch_failure (requests_get w (trace st) base_url)) as [e|] eqn:Hf.
  - by rewrite (get_all_links_failed _ _ _ e).
  - destruct (requests_get w (trace st) base_url) as [r|e|msg] eqn:Hr; [|done|].
    + by rewrite (get_all_links_fetched _ _ _ r).
    + by rewrite (get_all_links_escaped _ _ _ msg).
Qed.

(** Every member of the set handed back passed [is_valid_url]. *)
Lemma collect_links_valid (w : World) (base_url : string) (hrefs : list string) :
  ∀ acc links,
    (∀ u, u ∈ acc → is_valid_url w u = Ok true) →
    collect_links w base_url hrefs acc = Ok links →
    ∀ u, u ∈ links → is_valid_url w u = Ok true.
Proof.
  induction hrefs as [|href rest IH]; intros acc links Hacc Hrun; cbn in Hrun.
  - by injection Hrun as <-.
  - destruct (normalize_href w base_url href) as [o|m] eqn:Hn; [|done].
    cbn in Hrun. eapply IH; [|exact Hrun].
    destruct o as [a|]; [|done].
    intros u [->%elem_of_singleton|Hu]%elem_of_union; [|by apply Hacc].
    unfold normalize_href in Hn.
    destruct (skipped_prefix href); [done|].
    destruct (urljoin _ _ base_url href) as [a'|]; [|done]. cbn in Hn.
    destruct (is_valid_url w a') as [[]|] eqn:Hv; cbn in Hn; congruence.
Qed.

Lemma links_to_check_valid (w : World) (base_url : string) (st : state)
    (links : gset string) :
  (get_all_links w base_url st).1 = Ok links →
  ∀ u, u ∈ links → is_valid_url w u = Ok true.
Proof.
  intros Hrun.
  destruct (fetch_failure (requests_get w (trace st) base_url)) as [e|] eqn:Hf.
  - rewrite (get_all_links_failed _ _ _ e) in Hrun by done.
    injection Hrun as <-. set_solver.
  - destruct (requests_get w (trace st) base_url) as [r|e|msg] eqn:Hr; [|done|].
    + rewrite (get_all_links_fetched _ _ _ r) in Hrun by done.
      eapply collect_links_valid; [|exact Hrun]. set_solver.
    + by rewrite (get_all_links_escaped _ _ _ msg) in Hrun.
Qed.

(** C1: with base https://site.test and the anchors "/about", "#top",
    "mailto:a@b.com" and "https://other.test/ok", extraction hands back
    the two-element set of https://site.test/about and
    https://other.test/ok; the anchor and the mail reference are passed
    over and the relative reference is resolved against the base. *)
Theorem scenario1_links (w : World) (st : state) (r : Response) :
  requests_get w (trace st) "https://site.test" = Responded r →
  raise_for_status r = None →
  find_all_a_href w (text r)
    = ["/about"; "#top"; "mailto:a@b.com"; "https://other.test/ok"] →
  (get_all_links w "https://site.test" st).1
    = Ok {[ "https://site.test/about"; "https://other.test/ok" ]}
  ∧ size ({[ "https://site.test/about"; "https://other.test/ok" ]} : gset string)
    = 2%nat
  ∧ normalize_href w "https://site.test" "/about"
    = Ok (Some "https://site.test/about")
  ∧ normalize_href w "https://site.test" "#top" = Ok None
  ∧ normalize_href w "https://site.test" "mailto:a@b.com" = Ok None
  ∧ normalize_href w "https://site.test" "https://other.test/ok"
    = Ok (Some "https://other.test/ok").
Proof.
  intros Hr Hs Hh. rewrite (get_all_links_fetched _ _ _ r) by done.
  rewrite Hh. cbn [fst].
  repeat split; vm_compute; reflexivity.
Qed.

Lemma scenario1_links_witness :
  (get_all_links scenario1 "https://site.test" initial_state).1
    = Ok {[ "https://site.test/about"; "https://other.test/ok" ]}.
Proof.
  apply (scenario1_links scenario1 initial_state
           (mkResponse 200 "OK" "<html>" "https://site.test"));
    reflexivity.
Defined.

(** C5, at the failing input: a page with the anchor
    "ftp://files.test/x" puts that URL, whose scheme is "ftp", into the
    set of links to probe. *)
Theorem ftp_link_accepted :
  (get_all_links ftp_page "https://site.test" initial_state).1
    = Ok {[ "ftp://files.test/x" ]}
  ∧ rbind (urlparse (check_bracketed_netloc ftp_page) (nfkc_netloc_ok ftp_page)
             "ftp://files.test/x" EmptyString)
      (λ parsed, Ok (scheme parsed, netloc parsed))
    = Ok ("ftp", "files.test").
Proof. split; vm_compute; reflexivity. Qed.

(** *** [main] when no link is found *)

Lemma main_no_links (w : World) (base_url : string) (st st1 : state) :
  is_valid_url w base_url = Ok true →
  get_all_links w base_url (started base_url st) = (Ok ∅, st1) →
  main w base_url st =
    (Ok tt, mkState (processed_urls st1) (trace st1 ++ [no_links_warning])).
Proof.
  intros Hv Hg. unfold main, bind at 1, lift. rewrite Hv. cbn [negb].
  unfold bind at 1, emit at 1. fold (started base_url st).
  unfold bind at 1. rewrite Hg. by rewrite bool_decide_eq_true_2.
Qed.

Lemma filter_app_quiet (f : event → bool) (tr more : list event) :
  forallb (λ e, negb (f e)) more = true →
  List.filter f (tr ++ more) = List.filter f tr.
Proof.
  intros Hq. rewrite List.filter_app.
  induction more as [|e more IH]; cbn in *; [by rewrite app_nil_r|].
  apply andb_prop in Hq as [He Hq]. destruct (f e); [done|]. by apply IH.
Qed.

(** C4, counterexample: on a page without anchors the scan warns and
    probes nothing, and no report line with a total of 0 is printed. *)
Lemma empty_page_no_report :
  ¬ (no_links_warning ∈ trace (main empty_page site initial_state).2
     ∧ List.filter is_head (trace (main empty_page site initial_state).2) = []
     ∧ Print "Total Tautan Diperiksa : 0"
         ∈ trace (main empty_page site initial_state).2).
Proof.
  intros (_ & _ & H).
  assert (trace (main empty_page site initial_state).2
          = [Log INFO "Memulai pemindaian di: https://site.test";
             Get site (page 200 site); no_links_warning]) as Htr
    by (vm_compute; reflexivity).
  rewrite Htr in H. rewrite !elem_of_cons, elem_of_nil in H.
  destruct H as [H|[H|[H|[]]]]; discriminate.
Qed.

Lemma main_no_links_fetched (w : World) (base_url : string) (st : state)
    (r : Response) :
  is_valid_url w base_url = Ok true →
  requests_get w (trace (started base_url st)) base_url = Responded r →
  raise_for_status r = None →
  collect_links w base_url (find_all_a_href w (text r)) ∅ = Ok ∅ →
  main w base_url st =
    (Ok tt,
     mkState (processed_urls st)
       (trace st ++ [Log INFO ("Memulai pemindaian di: " +:+ base_url);
                     Get base_url (Responded r);
                     no_links_warning])).
Proof.
  intros Hv Hr Hs Hc. erewrite main_no_links; [|done|].
  2:{ rewrite (get_all_links_fetched _ _ _ r) by done. by rewrite Hc. }
  cbn [processed_urls trace started]. by rewrite <- !app_assoc.
Qed.

(** C4, amended: when the seed page is fetched and extraction yields no
    link, the scan logs the no-links warning and stops there: no probe
    is sent and nothing is printed, the final report included. *)
Theorem no_links_warning_only (w : World) (base_url : string) (st : state)
    (r : Response) :
  is_valid_url w base_url = Ok true →
  requests_get w (trace (started base_url st)) base_url = Responded r →
  raise_for_status r = None →
  collect_links w base_url (find_all_a_href w (text r)) ∅ = Ok ∅ →
  main w base_url st =
    (Ok tt,
     mkState (processed_urls st)
       (trace st ++ [Log INFO ("Memulai pemindaian di: " +:+ base_url);
                     Get base_url (Responded r);
                     no_links_warning]))
  ∧ List.filter is_head (trace (main w base_url st).2)
    = List.filter is_head (trace st)
  ∧ List.filter is_print (trace (main w base_url st).2)
    = List.filter is_print (trace st).
Proof.
  intros Hv Hr Hs Hc.
  assert (main w base_url st =
    (Ok tt,
     mkState (processed_urls st)
       (trace st ++ [Log INFO ("Memulai pemindaian di: " +:+ base_url);
                     Get base_url (Responded r);
                     no_links_warning]))) as Hmain.
  { erewrite main_no_links; [|done|].
    2:{ rewrite (get_all_links_fetched _ _ _ r) by done. by rewrite Hc. }
    cbn [processed_urls trace started]. by rewrite <- !app_assoc. }
  rewrite Hmain. cbn [snd trace].
  split; [done|]. split; by apply filter_app_quiet.
Qed.

Lemma no_links_warning_only_witness :
  main empty_page site initial_state =
    (Ok tt,
     mkState ∅
       [Log INFO "Memulai pemindaian di: https://site.test";
        Get site (page 200 site);
        no_links_warning]).
Proof.
  apply (no_links_warning_only empty_page site initial_state
           (mkResponse 200 "OK" "<html>" site));
    vm_compute; reflexivity.
Defined.

(** *** A failed seed fetch *)

(** C10, at the failing inputs: a seed answered 300, a status outside
    2xx, is not handled as a failed fetch: [raise_for_status] raises
    nothing, the body is parsed, its anchor becomes a link, and the
    link is probed and reported.  A seed on which [requests.get] lets a
    [LocationParseError] through does not give the empty set either:
    the error leaves [get_all_links] and [main], and no warning is
    logged. *)
Theorem non_2xx_seed_is_parsed :
  requests_get multiple_choices (trace (started site initial_state)) site
    = Responded (mkResponse 300 "OK" "<html>" site)
  ∧ (get_all_links multiple_choices site (started site initial_state)).1
    = Ok {[ "https://site.test/a" ]}
  ∧ main multiple_choices site initial_state =
      (Ok tt,
       mkState {[ "https://site.test/a" ]}
         ([Log INFO "Memulai pemindaian di: https://site.test";
           Get site (page 300 site);
           found_log 1;
           progress_line 1 0 "https://site.test/a";
           Head "https://site.test/a" (page 200 "https://site.test/a")]
          ++ map Print (report_lines site 1 1 [])
          ++ [done_log]))
  ∧ is_valid_url empty_label_seed "http://a..b/" = Ok true
  ∧ main empty_label_seed "http://a..b/" initial_state =
      (ValueError label_error,
       mkState ∅
         [Log INFO "Memulai pemindaian di: http://a..b/";
          Get "http://a..b/" (Escaped label_error)]).
Proof. repeat split; vm_compute; reflexivity. Qed.

(** When [requests.get] raises a [RequestException] or the status is
    4xx or 5xx, extraction logs the failure and hands back the empty
    set; the scan then ends on the no-links warning, with no probe and
    no report.  A successful fetch of a page without links gives the
    same set, the same result, the same registry and the same probes,
    printed lines and warnings; the error line logged by the failed
    fetch tells the two traces apart. *)
Lemma failed_fetch_like_empty_page (w : World) (base_url : string)
    (st : state) (e : exn) :
  is_valid_url w base_url = Ok true →
  fetch_failure (requests_get w (trace (started base_url st)) base_url) = Some e →
  get_all_links w base_url (started base_url st) =
    (Ok ∅,
     mkState (processed_urls st)
       (trace st ++ [Log INFO ("Memulai pemindaian di: " +:+ base_url);
                     Get base_url
                       (requests_get w (trace (started base_url st)) base_url);
                     fetch_error_log base_url e]))
  ∧ main w base_url st =
    (Ok tt,
     mkState (processed_urls st)
       (trace st ++ [Log INFO ("Memulai pemindaian di: " +:+ base_url);
                     Get base_url
                       (requests_get w (trace (started base_url st)) base_url);
                     fetch_error_log base_url e;
                     no_links_warning]))
  ∧ scan_outcome (trace (main w base_url st).2)
    = scan_outcome (trace st ++ [no_links_warning])
  ∧ ∀ (w' : World) (r' : Response),
      is_valid_url w' base_url = Ok true →
      requests_get w' (trace (started base_url st)) base_url = Responded r' →
      raise_for_status r' = None →
      collect_links w' base_url (find_all_a_href w' (text r')) ∅ = Ok ∅ →
      (get_all_links w' base_url (started base_url st)).1
        = (get_all_links w base_url (started base_url st)).1
      ∧ (main w' base_url st).1 = (main w base_url st).1
      ∧ processed_urls (main w' base_url st).2
        = processed_urls (main w base_url st).2
      ∧ scan_outcome (trace (main w' base_url st).2)
        = scan_outcome (trace (main w base_url st).2).
Proof.
  intros Hv Hf.
  assert (get_all_links w base_url (started base_url st) =
    (Ok ∅,
     mkState (processed_urls st)
       (trace st ++ [Log INFO ("Memulai pemindaian di: " +:+ base_url);
                     Get base_url
                       (requests_get w (trace (started base_url st)) base_url);
                     fetch_error_log base_url e]))) as Hg.
  { rewrite (get_all_links_failed _ _ _ e) by done.
    cbn [processed_urls trace started]. by rewrite <- app_assoc. }
  assert (main w base_url st =
    (Ok tt,
     mkState (processed_urls st)
       (trace st ++ [Log INFO ("Memulai pemindaian di: " +:+ base_url);
                     Get base_url
                       (requests_get w (trace (started base_url st)) base_url);
                     fetch_error_log base_url e;
                     no_links_warning]))) as Hm.
  { erewrite main_no_links; [|done|exact Hg].
    cbn [processed_urls trace]. by rewrite <- app_assoc. }
  assert (scan_outcome (trace (main w base_url st).2)
          = scan_outcome (trace st ++ [no_links_warning])) as Ho.
  { rewrite Hm. cbn [snd trace]. unfold scan_outcome.
    rewrite !List.filter_app. reflexivity. }
  split; [done|]. split; [done|]. split; [done|].
  intros w' r' Hv' Hr' Hs' Hc'.
  pose proof (main_no_links_fetched w' base_url st r' Hv' Hr' Hs' Hc') as Hm'.
  rewrite Hg, (get_all_links_fetched _ _ _ r'), Hc' by done.
  rewrite Ho, Hm', Hm. cbn [fst snd processed_urls trace].
  repeat split. unfold scan_outcome. rewrite !List.filter_app. reflexivity.
Qed.

Lemma failed_fetch_like_empty_page_witness :
  main unreachable site initial_state =
    (Ok tt,
     mkState ∅
       [Log INFO "Memulai pemindaian di: https://site.test";
        Get site (Raised (mkExn ConnectionError "Connection refused"));
        fetch_error_log site (mkExn ConnectionError "Connection refused");
        no_links_warning])
  ∧ scan_outcome (trace (main empty_page site initial_state).2)
    = scan_outcome (trace (main unreachable site initial_state).2).
Proof.
  pose proof (failed_fetch_like_empty_page unreachable site initial_state
                (mkExn ConnectionError "Connection refused")) as H.
  destruct H as (_ & Hm & _ & Hcmp); [vm_compute; reflexivity | reflexivity |].
  split; [exact Hm|].
  apply (Hcmp empty_page (mkResponse 200 "OK" "<html>" site));
    vm_compute; reflexivity.
Defined.

(** *** The probing loop *)

Lemma head_count_quiet (u : string) (ev : list event) :
  forallb (λ e, negb (is_head e)) ev = true → head_count u ev = 0%nat.
Proof.
  induction ev as [|e ev IH]; cbn; [done|].
  intros [He Hev]%andb_prop. destruct e; try done; by apply IH.
Qed.

(** One turn of the loop on a link that is not marked yet, when the
    HEAD request lets no exception escape: a progress line, one HEAD
    request, a warning when the probe failed, and an entry in
    [broken_links] exactly in that case. *)
Lemma probe_links_cons (w : World) (total i : nat) (link : string)
    (rest : list string) (broken : list (string * string)) (ok : Z)
    (st : state) :
  heads_never_escape w →
  link ∉ processed_urls st →
  ∃ ev ok1,
    probe_links w total i (link :: rest) broken ok st =
      probe_links w total (S i) rest
        (broken ++
           match failure_reason
                   (requests_head w (trace st ++ [progress_line total i link]) link)
           with
           | Some reason => [(link, reason)]
           | None => []
           end)
        ok1
        (mkState ({[link]} ∪ processed_urls st)
           (trace st ++
              progress_line total i link
              :: Head link
                   (requests_head w (trace st ++ [progress_line total i link]) link)
              :: ev))
    ∧ forallb (λ e, negb (is_head e)) ev = true.
Proof.
  intros Hne Hfresh. cbn [probe_links]. fold (progress_line total i link).
  unfold bind at 1, emit at 1. unfold bind at 1.
  rewrite check_link_fresh by done. cbn [processed_urls trace].
  pose proof (Hne (trace st ++ [progress_line total i link]) link) as Hne'.
  destruct (requests_head w (trace st ++ [progress_line total i link]) link)
    as [r|e|msg]; cbn [probe_result failure_reason snd];
    [| |by destruct (Hne' msg)].
  - destruct (400 <=? status_code r) eqn:Hs; rewrite ?Hs.
    + eexists [_], ok.
      split; [unfold bind at 1, emit at 1; cbn [processed_urls trace];
              rewrite <- !app_assoc; reflexivity | reflexivity].
    + exists [], (ok + 1). split; [|done].
      by rewrite app_nil_r, <- !app_assoc.
  - eexists [_], ok.
    split; [unfold bind at 1, emit at 1; cbn [processed_urls trace];
            rewrite <- !app_assoc; reflexivity | reflexivity].
Qed.

Lemma probe_links_run (w : World) (links : list string) :
  heads_never_escape w →
  ∀ (total i : nat) (broken : list (string * string)) (ok : Z) (st : state),
    NoDup links →
    (∀ l, l ∈ links → l ∉ processed_urls st) →
    ∃ tr broken' ok',
      probe_links w total i links broken ok st =
        (Ok (broken ++ broken', ok'),
         mkState (list_to_set links ∪ processed_urls st) (trace st ++ tr))
      ∧ (∀ l, l ∈ links → head_count l tr = 1%nat)
      ∧ (∀ l, l ∉ links → head_count l tr = 0%nat)
      ∧ (∀ l, l ∈ links →
           ∃ o, Head l o ∈ tr
                ∧ ∀ reason, failure_reason o = Some reason →
                            (l, reason) ∈ broken')
      ∧ (∀ l reason, (l, reason) ∈ broken' →
           ∃ o, Head l o ∈ tr ∧ failure_reason o = Some reason).
Proof.
  intros Hesc.
  induction links as [|link rest IH]; intros total i broken ok st Hnd Hfresh.
  - exists [], [], ok. cbn [probe_links ret list_to_set].
    rewrite !app_nil_r, (left_id_L ∅ (∪)). destruct st as [p t].
    repeat split; try done; intros l; rewrite ?elem_of_nil; try done.
    intros ? []%elem_of_nil.
  - apply NoDup_cons in Hnd as [Hnotin Hnd].
    destruct (probe_links_cons w total i link rest broken ok st Hesc)
      as (ev & ok1 & Hstep & Hquiet); [apply Hfresh; left|].
    set (o := requests_head w (trace st ++ [progress_line total i link]) link)
      in *.
    set (b1 := match failure_reason o with
               | Some reason => [(link, reason)]
               | None => []
               end) in *.
    destruct (IH total (S i) (broken ++ b1) ok1
                (mkState ({[link]} ∪ processed_urls st)
                   (trace st ++ progress_line total i link :: Head link o :: ev)))
      as (tr & b2 & ok' & Hrun & Hone & Hzero & Hfail & Honly); [exact Hnd| |].
    { cbn [processed_urls]. intros l Hl.
      rewrite not_elem_of_union, not_elem_of_singleton. split.
      - intros ->. done.
      - apply Hfresh. by right. }
    rewrite Hrun in Hstep. cbn [processed_urls trace] in Hstep.
    exists (progress_line total i link :: Head link o :: ev ++ tr), (b1 ++ b2), ok'.
    split.
    { rewrite Hstep. f_equal; [by rewrite <- app_assoc|].
      f_equal; [|rewrite <- !app_assoc; reflexivity].
      rewrite list_to_set_cons.
      by rewrite (comm_L (∪) {[link]} (list_to_set rest)), <- (assoc_L (∪)). }
    assert (∀ l, head_count l (progress_line total i link :: Head link o :: ev ++ tr)
                 = ((if String.eqb link l then 1 else 0) + head_count l tr)%nat)
      as Hcount.
    { intros l. cbn [head_count progress_line].
      by rewrite head_count_app, head_count_quiet. }
    split; [|split; [|split]].
    + intros l [->|Hl]%elem_of_cons; rewrite Hcount.
      * rewrite String.eqb_refl, Hzero by done. done.
      * destruct (String.eqb_spec link l) as [->|_]; [done|].
        by rewrite Hone.
    + intros l Hl. rewrite Hcount.
      apply not_elem_of_cons in Hl as [Hne Hl].
      destruct (String.eqb_spec link l) as [->|_]; [done|].
      by rewrite Hzero.
    + intros l [->|Hl]%elem_of_cons.
      * exists o. split; [set_solver|].
        intros reason Hr. subst b1. rewrite Hr. set_solver.
      * destruct (Hfail l Hl) as (o' & Hin & Hrep).
        exists o'. split; [|intros reason Hr; specialize (Hrep reason Hr)].
        -- rewrite !elem_of_cons, elem_of_app. auto.
        -- rewrite elem_of_app. auto.
    + intros l reason [Hin|Hin]%elem_of_app.
      * exists o. subst b1.
        destruct (failure_reason o) as [reason'|];
          [|by apply elem_of_nil in Hin].
        apply list_elem_of_singleton in Hin as [= -> ->].
        split; [set_solver|done].
      * destruct (Honly l reason Hin) as (o' & Hin' & Hr).
        exists o'. split; [|done].
        rewrite !elem_of_cons, elem_of_app. auto.
Qed.

Lemma print_all_run (lines : list string) :
  ∀ st, print_all lines st =
          (Ok tt, mkState (processed_urls st) (trace st ++ map Print lines)).
Proof.
  induction lines as [|l ls IH]; intros st; cbn [print_all map].
  - unfold ret. rewrite app_nil_r. by destruct st.
  - unfold bind, emit. rewrite IH. cbn [processed_urls trace].
    by rewrite <- app_assoc.
Qed.

Lemma main_probing (w : World) (base_url : string) (st st1 st2 : state)
    (links : gset string) (broken : list (string * string)) (ok : Z) :
  is_valid_url w base_url = Ok true →
  get_all_links w base_url (started base_url st) = (Ok links, st1) →
  links ≠ ∅ →
  probe_links w (size links) 0 (set_iter w links) [] 0
    (mkState (processed_urls st1) (trace st1 ++ [found_log (size links)]))
    = (Ok (broken, ok), st2) →
  main w base_url st =
    (Ok tt,
     mkState (processed_urls st2)
       (trace st2 ++ map Print (report_lines base_url (size links) ok broken)
        ++ [done_log])).
Proof.
  intros Hv Hg Hne Hp. unfold main, bind at 1, lift. rewrite Hv. cbn [negb].
  unfold bind at 1, emit at 1. fold (started base_url st).
  unfold bind at 1. rewrite Hg. rewrite bool_decide_eq_false_2 by done.
  unfold bind at 1, emit at 1. fold (found_log (size links)).
  unfold bind at 1. rewrite Hp. cbn [fst snd].
  unfold bind at 1. rewrite print_all_run. unfold emit.
  cbn [processed_urls trace]. by rewrite <- app_assoc.
Qed.

Lemma broken_line_reported (base_url : string) (total : nat) (ok : Z)
    (broken : list (string * string)) (link reason : string) :
  (link, reason) ∈ broken →
  broken_line link reason ∈ report_lines base_url total ok broken.
Proof.
  intros Hin. unfold report_lines. apply elem_of_app. right.
  destruct broken as [|b bs]; [by apply elem_of_nil in Hin|].
  apply elem_of_cons. right. apply list_elem_of_In.
  apply list_elem_of_In in Hin.
  apply (in_map (λ '(l, r), "- " +:+ l +:+ newline +:+ "  (Alasan: " +:+ r +:+ ")")
           _ _ Hin).
Qed.

(** A link that is already marked costs no request and lands in
    [broken_links] with the skip message. *)
Lemma probe_links_skipped (w : World) (total i : nat) (link : string)
    (rest : list string) (broken : list (string * string)) (ok : Z)
    (st : state) :
  link ∈ processed_urls st →
  probe_links w total i (link :: rest) broken ok st =
    probe_links w total (S i) rest
      (broken ++ [(link, "Skipped (Already Checked)")]) ok
      (mkState (processed_urls st)
         (trace st ++ [progress_line total i link;
                       broken_log link "Skipped (Already Checked)"])).
Proof.
  intros Hin. cbn [probe_links]. fold (progress_line total i link).
  unfold bind at 1, emit at 1. unfold bind at 1.
  rewrite check_link_skipped by done.
  unfold bind at 1, emit at 1. cbn [processed_urls trace].
  by rewrite <- app_assoc.
Qed.

(** *** Properties kept by a whole scan *)

Section Preservation.
Variable w : World.
Variable P : state → Prop.
Hypothesis P_emit : ∀ e st, is_head e = false → P st → P (emit e st).2.
Hypothesis P_check : ∀ url, preserves P (check_link w url).

Lemma preserves_ret {A} (a : A) : preserves P (ret a).
Proof. by intros st. Qed.

Lemma preserves_lift {A} (r : result A) : preserves P (lift r).
Proof. by intros st. Qed.

Lemma preserves_bind {A B} (m : M A) (k : A → M B) :
  preserves P m → (∀ a, preserves P (k a)) → preserves P (bind m k).
Proof.
  intros Hm Hk st HP. unfold bind. specialize (Hm st HP).
  destruct (m st) as [[a|msg] st']; [by apply Hk|done].
Qed.

Lemma preserves_emit (e : event) : is_head e = false → preserves P (emit e).
Proof. intros He st. by apply P_emit. Qed.

Lemma preserves_get_all_links (base_url : string) :
  preserves P (get_all_links w base_url).
Proof.
  unfold get_all_links, http_get.
  apply preserves_bind.
  - apply preserves_bind; [by intros st|]. intros st0.
    apply preserves_bind; [by apply preserves_emit|].
    intros _. apply preserves_ret.
  - intros [r|e|msg].
    + destruct (raise_for_status r).
      * apply preserves_bind; [by apply preserves_emit|].
        intros _. apply preserves_ret.
      * apply preserves_lift.
    + apply preserves_bind; [by apply preserves_emit|].
      intros _. apply preserves_ret.
    + apply preserves_lift.
Qed.

Lemma preserves_probe_links (links : list string) :
  ∀ total i broken ok, preserves P (probe_links w total i links broken ok).
Proof.
  induction links as [|link rest IH]; intros total i broken ok;
    cbn [probe_links]; [apply preserves_ret|].
  apply preserves_bind; [by apply preserves_emit|]. intros _.
  apply preserves_bind; [apply P_check|]. intros [[s|] message].
  - destruct (400 <=? s); [|apply IH].
    apply preserves_bind; [by apply preserves_emit|]. intros _. apply IH.
  - apply preserves_bind; [by apply preserves_emit|]. intros _. apply IH.
Qed.

Lemma preserves_print_all (lines : list string) : preserves P (print_all lines).
Proof.
  induction lines as [|l ls IH]; cbn [print_all]; [apply preserves_ret|].
  apply preserves_bind; [by apply preserves_emit|]. by intros _.
Qed.

Lemma preserves_main (base_url : string) : preserves P (main w base_url).
Proof.
  unfold main. apply preserves_bind; [apply preserves_lift|].
  intros valid. destruct (negb valid); [by apply preserves_emit|].
  apply preserves_bind; [by apply preserves_emit|]. intros _.
  apply preserves_bind; [apply preserves_get_all_links|]. intros links.
  case_bool_decide; [by apply preserves_emit|].
  apply preserves_bind; [by apply preserves_emit|]. intros _.
  apply preserves_bind; [apply preserves_probe_links|]. intros r.
  apply preserves_bind; [apply preserves_print_all|]. intros _.
  by apply preserves_emit.
Qed.

End Preservation.

(** *** The registry *)

Lemma probed_once_initial : probed_once initial_state.
Proof. intros u. cbn. split; lia. Qed.

Lemma probed_once_emit (e : event) (st : state) :
  is_head e = false → probed_once st → probed_once (emit e st).2.
Proof.
  intros He Hst u. cbn [emit snd trace processed_urls].
  rewrite head_count_app, (head_count_quiet u [e]), Nat.add_0_r; [apply Hst|].
  cbn. by rewrite He.
Qed.

Lemma probed_once_check_link (w : World) (url : string) :
  preserves probed_once (check_link w url).
Proof.
  intros st Hst.
  destruct (decide (url ∈ processed_urls st)) as [Hin|Hnin].
  - by rewrite check_link_skipped.
  - rewrite check_link_fresh by done. intros u.
    cbn [snd trace processed_urls]. rewrite head_count_app.
    cbn [head_count]. destruct (Hst u) as [Hle Hmarked].
    destruct (String.eqb_spec url u) as [->|Hne].
    + assert (head_count u (trace st) = 0%nat) as ->
        by (destruct (head_count u (trace st)); [done|]; exfalso;
            apply Hnin, Hmarked; lia).
      split; [cbn; lia|]. intros _. apply elem_of_union_l, elem_of_singleton.
      done.
    + rewrite Nat.add_0_r. split; [done|].
      intros Hpos. by apply elem_of_union_r, Hmarked.
Qed.

Lemma registry_grows_check_link (w : World) (url : string) (st : state) :
  processed_urls st ⊆ processed_urls (check_link w url st).2.
Proof.
  destruct (decide (url ∈ processed_urls st)) as [Hin|Hnin].
  - by rewrite check_link_skipped.
  - rewrite check_link_fresh by done. cbn [snd processed_urls].
    apply union_subseteq_r.
Qed.

Lemma registry_grows_main (w : World) (base_url : string) (st : state) :
  processed_urls st ⊆ processed_urls (main w base_url st).2.
Proof.
  apply (preserves_main w (λ st', processed_urls st ⊆ processed_urls st'));
    [by intros e st' _| |done].
  intros url st' Hsub. etransitivity; [exact Hsub|].
  apply registry_grows_check_link.
Qed.

Lemma probed_once_main (w : World) (base_url : string) :
  preserves probed_once (main w base_url).
Proof.
  apply preserves_main; [apply probed_once_emit|apply probed_once_check_link].
Qed.

(** C6: probing a URL that is already marked hands back the skip
    result and leaves the state as it is, so no request is sent; probing
    a URL that is not marked marks it and sends one HEAD request,
    whatever comes back, an exception that [check_link] does not catch
    included.  The registry only grows, and in the trace of a scan no
    URL is sent more than one HEAD request. *)
Theorem dedup_registry (w : World) (url : string) (st : state) :
  (url ∈ processed_urls st →
     check_link w url st = (Ok (None, "Skipped (Already Checked)"), st))
  ∧ (url ∉ processed_urls st →
     check_link w url st =
       (probe_result (requests_head w (trace st) url),
        mkState ({[url]} ∪ processed_urls st)
          (trace st ++ [Head url (requests_head w (trace st) url)])))
  ∧ processed_urls st ⊆ processed_urls (check_link w url st).2
  ∧ (∀ base_url, processed_urls st ⊆ processed_urls (main w base_url st).2)
  ∧ (∀ base_url u,
       probed_once st →
       (head_count u (trace (main w base_url st).2) ≤ 1)%nat)
  ∧ (∀ base_url u,
       (head_count u (trace (main w base_url initial_state).2) ≤ 1)%nat).
Proof.
  split; [apply check_link_skipped|].
  split; [apply check_link_fresh|].
  split; [apply registry_grows_check_link|].
  split; [intros b; apply registry_grows_main|].
  split.
  - intros b u Hst. by apply (probed_once_main w b st Hst u).
  - intros b u. by apply (probed_once_main w b _ probed_once_initial u).
Qed.

Lemma dedup_registry_witness :
  check_link scenario1 "https://site.test/about"
    (mkState {[ "https://site.test/about" ]} [])
  = (Ok (None, "Skipped (Already Checked)"),
     mkState {[ "https://site.test/about" ]} [])
  ∧ check_link scenario1 "https://site.test/about" initial_state
    = (Ok (Some 200, "OK"),
       mkState ({[ "https://site.test/about" ]} ∪ ∅)
         [Head "https://site.test/about" (page 200 "https://site.test/about")])
  ∧ (head_count "https://site.test/about"
       (trace (main scenario1 site initial_state).2) ≤ 1)%nat.
Proof.
  split; [|split].
  - apply (dedup_registry scenario1 "https://site.test/about"
             (mkState {[ "https://site.test/about" ]} [])).
    cbn [processed_urls]. apply elem_of_singleton_2. reflexivity.
  - apply (proj1 (proj2 (dedup_registry scenario1 "https://site.test/about"
                           initial_state))).
    cbn [processed_urls initial_state]. apply not_elem_of_empty.
  - apply (dedup_registry scenario1 "https://site.test/about" initial_state).
Defined.

(** *** A whole scan *)

(** C7, at the failing input: the link "http://a..b/" passes
    [is_valid_url]; its HEAD request ends in a [LocationParseError],
    which is no [RequestException].  [check_link] marks the link and
    raises instead of handing back a value, and [main] is aborted inside
    the loop: the trace ends with the HEAD request, no entry is made in
    the broken-links list and no report is printed. *)
Theorem escaping_probe_aborts_scan :
  is_valid_url empty_label_page "http://a..b/" = Ok true
  ∧ check_link empty_label_page "http://a..b/" initial_state =
      (ValueError label_error,
       mkState {[ "http://a..b/" ]}
         [Head "http://a..b/" (Escaped label_error)])
  ∧ main empty_label_page site initial_state =
      (ValueError label_error,
       mkState {[ "http://a..b/" ]}
         [Log INFO "Memulai pemindaian di: https://site.test";
          Get site (page 200 site);
          found_log 1;
          progress_line 1 0 "http://a..b/";
          Head "http://a..b/" (Escaped label_error)]).
Proof. repeat split; vm_compute; reflexivity. Qed.

(** C8, at the failing input: a second scan of the same page in one
    interpreter finds its link marked, sends no request, and lists the
    skipped link as broken with the skip message as reason. *)
Theorem second_scan_lists_skipped_as_broken :
  check_link (one_link (page 200 "https://site.test/a")) "https://site.test/a"
    (main (one_link (page 200 "https://site.test/a")) site initial_state).2
  = (Ok (None, "Skipped (Already Checked)"),
     (main (one_link (page 200 "https://site.test/a")) site initial_state).2)
  ∧ trace (main (one_link (page 200 "https://site.test/a")) site
             (main (one_link (page 200 "https://site.test/a")) site
                initial_state).2).2
    = trace (main (one_link (page 200 "https://site.test/a")) site
               initial_state).2
      ++ [Log INFO "Memulai pemindaian di: https://site.test";
          Get site (page 200 site);
          found_log 1;
          progress_line 1 0 "https://site.test/a";
          broken_log "https://site.test/a" "Skipped (Already Checked)"]
      ++ map Print
           (report_lines site 1 0
              [("https://site.test/a", "Skipped (Already Checked)")])
      ++ [done_log]
  ∧ Print "Tautan Rusak/Error : 1"
      ∈ map Print
          (report_lines site 1 0
             [("https://site.test/a", "Skipped (Already Checked)")]).
Proof.
  split; [vm_compute; reflexivity|].
  split; [vm_compute; reflexivity|].
  vm_compute. do 6 right. left.
Qed.

(** ** Further properties of [main.py] *)

(** *** Seeds that are never scanned *)

Lemma contains_find_none (c : ascii) (s : string) :
  contains c s = false → find c s = None.
Proof.
  induction s as [|d s IH]; cbn; [done|].
  intros [Hd Hs]%orb_false_elim. rewrite Hd. by rewrite IH.
Qed.

Lemma contains_lstrip (c : ascii) (p : ascii → bool) (s : string) :
  contains c s = false → contains c (lstrip p s) = false.
Proof.
  induction s as [|d s IH]; cbn; [done|].
  intros H. destruct (p d); [|done].
  apply orb_false_elim in H as [_ Hs]. by apply IH.
Qed.

Lemma contains_remove (c d : ascii) (s : string) :
  contains c s = false → contains c (remove d s) = false.
Proof.
  induction s as [|a s IH]; cbn; [done|].
  intros [Ha Hs]%orb_false_elim.
  destruct (Ascii.eqb d a); cbn; [by apply IH|]. by rewrite Ha, IH.
Qed.

Lemma no_colon_not_valid (w : World) (url : string) :
  contains ":" url = false → is_valid_url w url ≠ Ok true.
Proof.
  intros Hc. unfold is_valid_url, urlparse, urlsplit.
  rewrite contains_find_none
    by (unfold remove_unsafe; by do 3 apply contains_remove; apply contains_lstrip).
  cbn [strip lstrip rstrip remove_unsafe remove].
  destruct (String.eqb _ "//").
  - destruct (_splitnetloc _ 2) as [nl rest].
    destruct (_ || _); [done|].
    destruct (_ && _);
      [destruct (check_bracketed_netloc w nl) as [msg|]; [done|]|];
      cbn [rbind]; destruct (default _ (split_once "#" rest)) as [u1 frag];
      destruct (default _ (split_once "?" u1)) as [u2 qry];
      (destruct (_checknetloc _ nl); [|done]); cbn [rbind s_scheme s_path];
      (destruct (_ && _); [destruct (_splitparams u2)|]; done).
  - cbn [rbind].
    destruct (default _ (split_once "#" _)) as [u1 frag].
    destruct (default _ (split_once "?" u1)) as [u2 qry].
    cbn. by destruct (contains ";" u2); [destruct (_splitparams u2)|].
Qed.

(** A string without a colon never passes [is_valid_url]: nothing can
    be split off as a scheme, so the scheme stays empty. *)
Theorem is_valid_url_needs_colon (w : World) (url : string) :
  contains ":" url = false →
  is_valid_url w url ≠ Ok true.
Proof. apply no_colon_not_valid. Qed.

Lemma is_valid_url_needs_colon_witness :
  is_valid_url scenario1 "//site.test/index.html?x=1#top" ≠ Ok true.
Proof.
  apply (is_valid_url_needs_colon scenario1 "//site.test/index.html?x=1#top").
  vm_compute. reflexivity.
Defined.

Lemma main_not_valid (w : World) (base_url : string) (st : state) :
  is_valid_url w base_url ≠ Ok true →
  processed_urls (main w base_url st).2 = processed_urls st
  ∧ (trace (main w base_url st).2 = trace st
     ∨ trace (main w base_url st).2 = trace st ++ [invalid_url_error base_url]).
Proof.
  intros Hv. unfold main, bind at 1, lift.
  destruct (is_valid_url w base_url) as [[]|m]; [done| |]; cbn; auto.
Qed.

(** Unless [is_valid_url] hands back [True] for the seed, a run of
    [main] sends no request, prints nothing and leaves the registry
    alone; this covers the seed on which [urlparse] raises. *)
Theorem main_needs_valid_seed (w : World) (base_url : string) (st : state) :
  is_valid_url w base_url ≠ Ok true →
  network_calls (trace (main w base_url st).2) = network_calls (trace st)
  ∧ List.filter is_print (trace (main w base_url st).2)
    = List.filter is_print (trace st)
  ∧ processed_urls (main w base_url st).2 = processed_urls st.
Proof.
  intros Hv. destruct (main_not_valid w base_url st Hv) as [Hreg [Htr|Htr]];
    rewrite Htr; repeat split; try done.
  - unfold network_calls. by apply filter_app_quiet.
  - by apply filter_app_quiet.
Qed.

Lemma main_needs_valid_seed_witness :
  is_valid_url scenario1 "http://[" = ValueError "Invalid IPv6 URL"
  ∧ network_calls (trace (main scenario1 "http://[" initial_state).2) = [].
Proof.
  split; [vm_compute; reflexivity|].
  apply (main_needs_valid_seed scenario1 "http://[" initial_state).
  vm_compute. discriminate.
Defined.

(** *** What extraction does and returns *)

Lemma get_all_links_trace (w : World) (base_url : string) (st : state) :
  ∃ ev,
    (get_all_links w base_url st).2 =
      mkState (processed_urls st)
        (trace st ++ Get base_url (requests_get w (trace st) base_url) :: ev)
    ∧ (ev = [] ∨ ∃ e, ev = [fetch_error_log base_url e]).
Proof.
  destruct (fetch_failure (requests_get w (trace st) base_url)) as [e|] eqn:Hf.
  - rewrite (get_all_links_failed _ _ _ e) by done. eauto.
  - destruct (requests_get w (trace st) base_url) as [r|e|msg] eqn:Hr; [|done|].
    + rewrite (get_all_links_fetched _ _ _ r) by done. eauto.
    + rewrite (get_all_links_escaped _ _ _ msg) by done. eauto.
Qed.

(** Whatever the network answers and whatever the page holds,
    [get_all_links] sends exactly one request, the GET of the page it
    was given; it sends no HEAD, prints nothing and leaves
    [processed_urls] as it was. *)
Theorem get_all_links_one_get (w : World) (base_url : string) (st : state) :
  network_calls (trace (get_all_links w base_url st).2)
    = network_calls (trace st)
      ++ [Get base_url (requests_get w (trace st) base_url)]
  ∧ List.filter is_print (trace (get_all_links w base_url st).2)
    = List.filter is_print (trace st)
  ∧ processed_urls (get_all_links w base_url st).2 = processed_urls st.
Proof.
  destruct (get_all_links_trace w base_url st) as (ev & -> & Hev).
  cbn [trace processed_urls]. unfold network_calls.
  rewrite !List.filter_app.
  destruct Hev as [->|[e ->]]; cbn; by rewrite ?app_nil_r.
Qed.

Lemma collect_links_members (w : World) (base_url : string)
    (hrefs : list string) :
  ∀ acc links,
    collect_links w base_url hrefs acc = Ok links →
    ∀ u, u ∈ links ↔
         u ∈ acc
         ∨ ∃ href, href ∈ hrefs ∧ normalize_href w base_url href = Ok (Some u).
Proof.
  induction hrefs as [|href rest IH]; intros acc links Hrun u; cbn in Hrun.
  - injection Hrun as <-. split; [auto|].
    intros [?|(h & []%elem_of_nil & _)]. done.
  - destruct (normalize_href w base_url href) as [o|m] eqn:Hn; [|done].
    cbn in Hrun. rewrite (IH _ _ Hrun u). split.
    + intros [Hu|(h & Hh & Hnh)].
      * destruct o as [a|]; [|by left].
        apply elem_of_union in Hu as [->%elem_of_singleton|Hu]; [|by left].
        right. exists href. split; [left|done].
      * right. exists h. split; [by right|done].
    + intros [Hu|(h & [->|Hh]%elem_of_cons & Hnh)].
      * left. destruct o; [by apply elem_of_union_r|done].
      * left. rewrite Hnh in Hn. injection Hn as <-.
        by apply elem_of_union_l, elem_of_singleton.
      * right. by exists h.
Qed.

Lemma collect_links_size (w : World) (base_url : string)
    (hrefs : list string) :
  ∀ acc links,
    collect_links w base_url hrefs acc = Ok links →
    (size links ≤ size acc + length hrefs)%nat.
Proof.
  induction hrefs as [|href rest IH]; intros acc links Hrun; cbn in Hrun.
  - injection Hrun as <-. cbn. lia.
  - destruct (normalize_href w base_url href) as [o|m]; [|done].
    cbn in Hrun. apply IH in Hrun. cbn [length].
    destruct o as [a|]; [|lia].
    pose proof (size_union_alt {[a]} acc) as Hsz.
    pose proof (subseteq_size (acc ∖ {[a]}) acc (subseteq_difference_l _ _ _
                  (reflexivity acc))) as Hle.
    rewrite size_singleton in Hsz. lia.
Qed.

(** When the page is fetched and no reference makes [urljoin] or
    [urlparse] raise, the set handed back holds exactly the URLs that
    the references of the page normalise to: nothing else gets in,
    nothing accepted is lost, and duplicates collapse, so the set is no
    larger than the list of references. *)
Theorem get_all_links_members (w : World) (base_url : string) (st : state)
    (r : Response) (links : gset string) :
  requests_get w (trace st) base_url = Responded r →
  raise_for_status r = None →
  (get_all_links w base_url st).1 = Ok links →
  (∀ u, u ∈ links ↔
        ∃ href, href ∈ find_all_a_href w (text r)
                ∧ normalize_href w base_url href = Ok (Some u))
  ∧ (size links ≤ length (find_all_a_href w (text r)))%nat.
Proof.
  intros Hr Hs Hrun. rewrite (get_all_links_fetched _ _ _ r) in Hrun by done.
  cbn [fst] in Hrun. split.
  - intros u. rewrite (collect_links_members _ _ _ _ _ Hrun u).
    split; [intros [[]%not_elem_of_empty|H]; exact H|auto].
  - apply collect_links_size in Hrun. by rewrite size_empty in Hrun.
Qed.

Lemma get_all_links_members_witness :
  (∀ u, u ∈ ({[ "https://site.test/a"; "https://site.test" ]} : gset string) ↔
        ∃ href, href ∈ ["/a"; "/a"; EmptyString]
                ∧ normalize_href repeated_links_page site href = Ok (Some u))
  ∧ (size ({[ "https://site.test/a"; "https://site.test" ]} : gset string)
     ≤ 3)%nat.
Proof.
  apply (get_all_links_members repeated_links_page site initial_state
           (mkResponse 200 "OK" "<html>" site));
    vm_compute; reflexivity.
Defined.

Lemma valid_url_parts (w : World) (u : string) :
  is_valid_url w u = Ok true →
  ∃ parsed,
    urlparse (check_bracketed_netloc w) (nfkc_netloc_ok w) u EmptyString = Ok parsed
    ∧ scheme parsed ≠ EmptyString ∧ netloc parsed ≠ EmptyString.
Proof.
  unfold is_valid_url. intros Hv.
  destruct (urlparse _ _ u EmptyString) as [p|m]; [|done].
  exists p. split; [done|]. cbn in Hv. injection Hv as Hv.
  apply andb_prop in Hv as [Hs Hn].
  split; intros Heq; [rewrite Heq in Hs|rewrite Heq in Hn]; done.
Qed.

(** Every URL in the set [get_all_links] hands back parses, with
    [urlparse], into a non-empty scheme and a non-empty network
    location; in particular it contains a colon. *)
Theorem links_have_scheme_and_netloc (w : World) (base_url : string)
    (st : state) (links : gset string) :
  (get_all_links w base_url st).1 = Ok links →
  ∀ u, u ∈ links →
    (∃ parsed,
       urlparse (check_bracketed_netloc w) (nfkc_netloc_ok w) u EmptyString
         = Ok parsed
       ∧ scheme parsed ≠ EmptyString ∧ netloc parsed ≠ EmptyString)
    ∧ contains ":" u = true.
Proof.
  intros Hrun u Hu.
  pose proof (links_to_check_valid w base_url st links Hrun u Hu) as Hv.
  split; [by apply valid_url_parts|].
  destruct (contains ":" u) eqn:Hc; [done|].
  by apply no_colon_not_valid with (w := w) in Hc.
Qed.

Lemma links_have_scheme_and_netloc_witness :
  (∃ parsed,
     urlparse (check_bracketed_netloc scenario1) (nfkc_netloc_ok scenario1)
       "https://other.test/ok" EmptyString = Ok parsed
     ∧ scheme parsed ≠ EmptyString ∧ netloc parsed ≠ EmptyString)
  ∧ contains ":" "https://other.test/ok" = true.
Proof.
  apply (links_have_scheme_and_netloc scenario1 site initial_state
           scenario1_set ltac:(vm_compute; reflexivity)
           "https://other.test/ok").
  apply elem_of_union_r, elem_of_singleton_2. reflexivity.
Defined.

Lemma normalize_empty_href (w : World) (base_url : string) :
  is_valid_url w base_url = Ok true →
  normalize_href w base_url EmptyString = Ok (Some base_url).
Proof.
  intros Hv. unfold normalize_href. cbn [skipped_prefix startswith orb].
  assert (urljoin (check_bracketed_netloc w) (nfkc_netloc_ok w) base_url EmptyString
          = Ok base_url) as ->
    by (unfold urljoin; by destruct base_url).
  cbn [rbind]. by rewrite Hv.
Qed.

(** An anchor with an empty [href] resolves to the page itself: when
    the seed is valid and the page is fetched, the seed URL is among the
    links to probe. *)
Theorem empty_href_adds_seed (w : World) (base_url : string) (st : state)
    (r : Response) (links : gset string) :
  is_valid_url w base_url = Ok true →
  requests_get w (trace st) base_url = Responded r →
  raise_for_status r = None →
  EmptyString ∈ find_all_a_href w (text r) →
  (get_all_links w base_url st).1 = Ok links →
  base_url ∈ links.
Proof.
  intros Hv Hr Hs Hin Hrun.
  rewrite (get_all_links_fetched _ _ _ r) in Hrun by done. cbn [fst] in Hrun.
  apply (collect_links_members _ _ _ _ _ Hrun). right.
  exists EmptyString. split; [done|]. by apply normalize_empty_href.
Qed.

Lemma empty_href_adds_seed_witness :
  site ∈ ({[ "https://site.test/a"; "https://site.test" ]} : gset string).
Proof.
  apply (empty_href_adds_seed repeated_links_page site initial_state
           (mkResponse 200 "OK" "<html>" site));
    try (vm_compute; reflexivity).
  vm_compute. do 2 right. left.
Defined.

(** *** A reference that cannot be parsed *)

Lemma collect_links_raises (w : World) (base_url : string)
    (pre : list string) (href : string) (post : list string) (m : string) :
  (∀ h, h ∈ pre → ∃ o, normalize_href w base_url h = Ok o) →
  normalize_href w base_url href = ValueError m →
  ∀ acc, collect_links w base_url (pre ++ href :: post) acc = ValueError m.
Proof.
  intros Hpre Hbad. induction pre as [|h pre IH]; intros acc; cbn.
  - by rewrite Hbad.
  - destruct (Hpre h) as [o ->]; [left|]. cbn. apply IH.
    intros h' Hh'. apply Hpre. by right.
Qed.

Lemma main_extract_raises (w : World) (base_url : string) (st st1 : state)
    (m : string) :
  is_valid_url w base_url = Ok true →
  get_all_links w base_url (started base_url st) = (ValueError m, st1) →
  main w base_url st = (ValueError m, st1).
Proof.
  intros Hv Hg. unfold main, bind at 1, lift. rewrite Hv. cbn [negb].
  unfold bind at 1, emit at 1. fold (started base_url st).
  unfold bind at 1. by rewrite Hg.
Qed.

Lemma unbalanced_bracket_raises (w : World) (base_url : string) :
  is_valid_url w base_url = Ok true →
  normalize_href w base_url "http://[" = ValueError "Invalid IPv6 URL".
Proof.
  intros Hv. destruct (valid_url_parts w base_url Hv) as (b & Hb & Hsch & _).
  unfold normalize_href. cbn [skipped_prefix startswith orb Ascii.eqb].
  replace (skipped_prefix "http://[") with false by (vm_compute; reflexivity).
  unfold urljoin. destruct base_url as [|c base]; [by vm_compute in Hv|].
  cbn [truthy negb]. rewrite Hb. cbn [rbind].
  assert (∀ s, urlparse (check_bracketed_netloc w) (nfkc_netloc_ok w)
                 "http://[" s = ValueError "Invalid IPv6 URL") as ->
    by (intros s; vm_compute; reflexivity).
  reflexivity.
Qed.

(** [ValueError] is no [RequestException]: when a reference of the page
    makes [urljoin] or [urlparse] raise, the error leaves
    [get_all_links] and [main] uncaught.  The scan stops right after
    the GET: the references before it do not matter, nothing is probed,
    nothing is printed, no warning is logged.  The reference "http://["
    does this on every valid seed. *)
Theorem unparsable_link_aborts_scan (w : World) (base_url : string)
    (st : state) (r : Response) (pre : list string) (href : string)
    (post : list string) (m : string) :
  is_valid_url w base_url = Ok true →
  requests_get w (trace (started base_url st)) base_url = Responded r →
  raise_for_status r = None →
  find_all_a_href w (text r) = pre ++ href :: post →
  (∀ h, h ∈ pre → ∃ o, normalize_href w base_url h = Ok o) →
  normalize_href w base_url href = ValueError m →
  main w base_url st =
    (ValueError m,
     mkState (processed_urls st)
       (trace st ++ [Log INFO ("Memulai pemindaian di: " +:+ base_url);
                     Get base_url (Responded r)]))
  ∧ normalize_href w base_url "http://[" = ValueError "Invalid IPv6 URL".
Proof.
  intros Hv Hr Hs Hh Hpre Hbad. split; [|by apply unbalanced_bracket_raises].
  erewrite main_extract_raises; [reflexivity|done|].
  rewrite (get_all_links_fetched _ _ _ r) by done. rewrite Hh.
  rewrite (collect_links_raises w base_url pre href post m Hpre Hbad).
  unfold lift. cbn [started processed_urls trace]. by rewrite <- app_assoc.
Qed.

Lemma unparsable_link_aborts_scan_witness :
  main bad_bracket_page site initial_state =
    (ValueError "Invalid IPv6 URL",
     mkState ∅
       [Log INFO "Memulai pemindaian di: https://site.test";
        Get site (page 200 site)]).
Proof.
  apply (unparsable_link_aborts_scan bad_bracket_page site initial_state
           (mkResponse 200 "OK" "<html>" site) ["/ok"] "http://[" ["/never"]);
    try (vm_compute; reflexivity).
  intros h Hh. apply list_elem_of_singleton in Hh as ->.
  eexists. vm_compute. reflexivity.
Defined.

(** *** The probing loop on any registry *)

Ltac quiet_events He :=
  cbn [app] in He; rewrite ?elem_of_cons, ?elem_of_nil in He;
  repeat (destruct He as [->|He]); try done;
  (split; [reflexivity|split; [reflexivity|]]);
  intros ? ? Heq; try discriminate Heq; by injection Heq as <- _.

(** One turn of the loop, marked link or not.  After the progress line
    come events that are no print and no GET and whose HEAD, if any,
    goes to the link.  Either the HEAD request let an exception escape
    and the loop is left with it, or the loop goes on with the link in
    exactly one of the two tallies. *)
Lemma probe_links_step (w : World) (total i : nat) (link : string)
    (rest : list string) (broken : list (string * string)) (ok : Z)
    (st : state) :
  ∃ ev,
    (∀ e, e ∈ ev →
       is_print e = false ∧ is_get e = false
       ∧ ∀ u o, e = Head u o → u = link)
    ∧ ((∃ msg,
          requests_head w (trace st ++ [progress_line total i link]) link
            = Escaped msg
          ∧ probe_links w total i (link :: rest) broken ok st =
              (ValueError msg,
               mkState ({[link]} ∪ processed_urls st)
                 (trace st ++ progress_line total i link :: ev)))
       ∨ (∃ b1 k,
            probe_links w total i (link :: rest) broken ok st =
              probe_links w total (S i) rest (broken ++ b1) (ok + k)
                (mkState ({[link]} ∪ processed_urls st)
                   (trace st ++ progress_line total i link :: ev))
            ∧ (length b1 + Z.to_nat k = 1)%nat ∧ 0 ≤ k
            ∧ (∀ l reason, (l, reason) ∈ b1 → l = link))).
Proof.
  destruct (decide (link ∈ processed_urls st)) as [Hin|Hnin].
  - rewrite probe_links_skipped by done.
    exists [broken_log link "Skipped (Already Checked)"].
    split; [intros e He; quiet_events He|]. right.
    exists [(link, "Skipped (Already Checked)")], 0.
    rewrite Z.add_0_r.
    replace ({[link]} ∪ processed_urls st) with (processed_urls st)
      by (symmetry; apply subseteq_union_1_L; by apply singleton_subseteq_l).
    split; [done|]. split; [done|]. split; [done|].
    by intros l reason [= -> _]%list_elem_of_singleton.
  - remember (probe_links w total i (link :: rest) broken ok st) as run
      eqn:Hrun.
    cbn [probe_links] in Hrun. fold (progress_line total i link) in Hrun.
    unfold bind at 1, emit at 1 in Hrun. unfold bind at 1 in Hrun.
    rewrite check_link_fresh in Hrun by done.
    cbn [processed_urls trace] in Hrun.
    destruct (requests_head w (trace st ++ [progress_line total i link]) link)
      as [r|e|msg]; cbn [probe_result] in Hrun.
    + destruct (400 <=? status_code r) eqn:Hs;
        cbn beta iota in Hrun; rewrite ?Hs in Hrun.
      * unfold bind at 1, emit at 1 in Hrun.
        cbn [processed_urls trace] in Hrun. rewrite <- !app_assoc in Hrun.
        eexists [Head link (Responded r); _].
        split; [|right; eexists [_], 0; rewrite Z.add_0_r;
                 split; [exact Hrun|]; split; [done|]; split; [done|];
                 by intros l reason [= -> _]%list_elem_of_singleton].
        intros e He. quiet_events He.
      * rewrite <- !app_assoc in Hrun.
        exists [Head link (Responded r)].
        split; [intros e He; quiet_events He|]. right. exists [], 1.
        rewrite app_nil_r.
        split; [exact Hrun|]. split; [done|]. split; [done|].
        by intros l reason []%elem_of_nil.
    + unfold bind at 1, emit at 1 in Hrun.
      cbn [processed_urls trace] in Hrun. rewrite <- !app_assoc in Hrun.
      eexists [Head link (Raised e); _].
      split; [|right; eexists [_], 0; rewrite Z.add_0_r;
               split; [exact Hrun|]; split; [done|]; split; [done|];
               by intros l reason [= -> _]%list_elem_of_singleton].
      intros e' He. quiet_events He.
    + rewrite <- !app_assoc in Hrun.
      exists [Head link (Escaped msg)].
      split; [intros e He; quiet_events He|]. left. exists msg.
      split; [done|exact Hrun].
Qed.

Lemma filter_none (f : event → bool) (ev : list event) :
  (∀ e, e ∈ ev → f e = false) → List.filter f ev = [].
Proof.
  induction ev as [|e ev IH]; intros H; cbn; [done|].
  rewrite (H e) by left. apply IH. intros e' He'. apply H. by right.
Qed.

(** However the loop ends, with its tallies or with an exception that
    escaped a HEAD request, what it adds to the trace holds no GET, and
    its HEAD requests go to links of the list. *)
Lemma probe_links_any (w : World) (links : list string) :
  ∀ (total i : nat) (broken : list (string * string)) (ok : Z) (st : state),
    ∃ tr,
      trace (probe_links w total i links broken ok st).2 = trace st ++ tr
      ∧ (∀ u o, Head u o ∈ tr → u ∈ links)
      ∧ (∀ e, e ∈ tr → is_get e = false).
Proof.
  induction links as [|link rest IH]; intros total i broken ok st.
  - exists []. cbn. rewrite app_nil_r.
    repeat split; by intros; exfalso; eapply elem_of_nil.
  - destruct (probe_links_step w total i link rest broken ok st)
      as (ev & Hev & [(msg & _ & Hstep)|(b1 & k1 & Hstep & _)]).
    + rewrite Hstep. cbn [snd trace]. eexists. split; [reflexivity|]. split.
      * intros u o [Heq|Hin]%elem_of_cons; [done|].
        destruct (Hev _ Hin) as (_ & _ & Hu). rewrite (Hu u o eq_refl). left.
      * intros e [->|Hin]%elem_of_cons; [done|]. by apply Hev.
    + destruct (IH total (S i) (broken ++ b1) (ok + k1)
                  (mkState ({[link]} ∪ processed_urls st)
                     (trace st ++ progress_line total i link :: ev)))
        as (tr & Htr & Hhead & Hget).
      rewrite Hstep, Htr. cbn [trace].
      exists (progress_line total i link :: ev ++ tr).
      split; [by rewrite <- !app_assoc|]. split.
      * intros u o [Heq|[Hin|Hin]%elem_of_app]%elem_of_cons; [done| |].
        -- destruct (Hev _ Hin) as (_ & _ & Hu). rewrite (Hu u o eq_refl). left.
        -- right. by eapply Hhead.
      * intros e [->|[Hin|Hin]%elem_of_app]%elem_of_cons; [done| |].
        -- by apply Hev.
        -- by apply Hget.
Qed.

(** When no HEAD request lets an exception escape, the loop visits
    every link and ends with its two tallies. *)
Lemma probe_links_complete (w : World) (links : list string) :
  heads_never_escape w →
  ∀ (total i : nat) (broken : list (string * string)) (ok : Z) (st : state),
    ∃ tr broken' k,
      probe_links w total i links broken ok st =
        (Ok (broken ++ broken', ok + k),
         mkState (list_to_set links ∪ processed_urls st) (trace st ++ tr))
      ∧ (length broken' + Z.to_nat k = length links)%nat ∧ 0 ≤ k
      ∧ (∀ l reason, (l, reason) ∈ broken' → l ∈ links)
      ∧ List.filter is_print tr
        = imap (λ j link, progress_line total (i + j) link) links
      ∧ (∀ u o, Head u o ∈ tr → u ∈ links)
      ∧ (∀ e, e ∈ tr → is_get e = false).
Proof.
  intros Hesc.
  induction links as [|link rest IH]; intros total i broken ok st.
  - exists [], [], 0. cbn [probe_links ret list_to_set imap].
    rewrite !app_nil_r, Z.add_0_r, (left_id_L ∅ (∪)). destruct st as [p t].
    repeat split; try done; by intros; exfalso; eapply elem_of_nil.
  - destruct (probe_links_step w total i link rest broken ok st)
      as (ev & Hev & [(msg & Hbad & _)|(b1 & k1 & Hstep & Hlen1 & Hk1 & Hb1)]);
      [by destruct (Hesc _ _ _ Hbad)|].
    destruct (IH total (S i) (broken ++ b1) (ok + k1)
                (mkState ({[link]} ∪ processed_urls st)
                   (trace st ++ progress_line total i link :: ev)))
      as (tr & b2 & k2 & Hrun & Hlen2 & Hk2 & Hb2 & Hprint & Hhead & Hget).
    rewrite Hrun in Hstep. cbn [processed_urls trace] in Hstep.
    exists (progress_line total i link :: ev ++ tr), (b1 ++ b2), (k1 + k2).
    split.
    { rewrite Hstep, <- !app_assoc, <- Z.add_assoc, list_to_set_cons.
      by rewrite (comm_L (∪) {[link]} (list_to_set rest)), <- (assoc_L (∪)). }
    split; [rewrite length_app; cbn [length]; lia|]. split; [lia|].
    split; [|split; [|split]].
    + intros l reason [Hin|Hin]%elem_of_app.
      * rewrite (Hb1 _ _ Hin). left.
      * right. by eapply Hb2.
    + cbn [List.filter progress_line is_print imap].
      rewrite List.filter_app, (filter_none is_print ev), Hprint
        by (intros e He; by apply Hev).
      cbn [app]. rewrite Nat.add_0_r. f_equal.
      apply imap_ext. intros j l _. cbn. f_equal. lia.
    + intros u o [Heq|[Hin|Hin]%elem_of_app]%elem_of_cons; [done| |].
      * destruct (Hev _ Hin) as (_ & _ & Hu). rewrite (Hu u o eq_refl). left.
      * right. by eapply Hhead.
    + intros e [->|[Hin|Hin]%elem_of_app]%elem_of_cons; [done| |].
      * by apply Hev.
      * by apply Hget.
Qed.

Ltac nonempty_by_size :=
  let H := fresh in
  intros H; apply (f_equal (λ s : gset string, size s)) in H;
  vm_compute in H; discriminate.

Lemma set_iter_length (w : World) (links : gset string) :
  length (set_iter w links) = size links.
Proof. by rewrite (set_iter_perm w links). Qed.

Lemma set_iter_elem (w : World) (links : gset string) (l : string) :
  l ∈ set_iter w links ↔ l ∈ links.
Proof. rewrite (set_iter_perm w links). apply elem_of_elements. Qed.

Lemma set_iter_to_set (w : World) (links : gset string) :
  list_to_set (set_iter w links) = links.
Proof. rewrite (set_iter_perm w links). apply list_to_set_elements_L. Qed.

(** A scan that found links, on any registry, when no HEAD request
    lets an exception escape. *)
Lemma main_scan (w : World) (base_url : string) (st st1 : state)
    (links : gset string) :
  heads_never_escape w →
  is_valid_url w base_url = Ok true →
  get_all_links w base_url (started base_url st) = (Ok links, st1) →
  links ≠ ∅ →
  ∃ tr broken ok,
    main w base_url st =
      (Ok tt,
       mkState (links ∪ processed_urls st)
         (trace st1 ++ found_log (size links) :: tr
          ++ map Print (report_lines base_url (size links) ok broken)
          ++ [done_log]))
    ∧ ok + Z.of_nat (length broken) = Z.of_nat (size links) ∧ 0 ≤ ok
    ∧ (∀ l reason, (l, reason) ∈ broken → l ∈ links)
    ∧ List.filter is_print tr
      = imap (λ j link, progress_line (size links) j link) (set_iter w links)
    ∧ (∀ u o, Head u o ∈ tr → u ∈ links)
    ∧ (∀ e, e ∈ tr → is_get e = false).
Proof.
  intros Hesc Hv Hg Hne.
  assert (processed_urls st1 = processed_urls st) as Hreg.
  { pose proof (get_all_links_registry w base_url (started base_url st)) as H.
    by rewrite Hg in H. }
  destruct (probe_links_complete w (set_iter w links) Hesc (size links) 0 [] 0
              (mkState (processed_urls st1)
                 (trace st1 ++ [found_log (size links)])))
    as (tr & broken & ok & Hrun & Hlen & Hok & Hb & Hprint & Hhead & Hget).
  cbn [app] in Hrun. rewrite Z.add_0_l in Hrun.
  exists tr, broken, ok. split.
  { rewrite (main_probing w base_url st st1 _ links broken ok Hv Hg Hne Hrun).
    cbn [processed_urls trace]. rewrite set_iter_to_set, Hreg.
    by rewrite <- !app_assoc. }
  rewrite set_iter_length in Hlen.
  split; [lia|]. split; [done|]. split; [|split; [done|split; [|done]]].
  - intros l reason Hin. by eapply set_iter_elem, Hb.
  - intros u o Hin. by eapply set_iter_elem, Hhead.
Qed.

(** When no HEAD request lets an exception from outside the
    [RequestException] family escape, a scan that found links runs to
    the end of its report whatever the registry holds, and the report
    adds up: working links plus broken links is the total, and every
    broken entry is one of the links found. *)
Theorem report_adds_up (w : World) (base_url : string) (st st1 : state)
    (links : gset string) :
  heads_never_escape w →
  is_valid_url w base_url = Ok true →
  get_all_links w base_url (started base_url st) = (Ok links, st1) →
  links ≠ ∅ →
  ∃ tr broken ok,
    main w base_url st =
      (Ok tt,
       mkState (links ∪ processed_urls st)
         (trace st1 ++ found_log (size links) :: tr
          ++ map Print (report_lines base_url (size links) ok broken)
          ++ [done_log]))
    ∧ ok + Z.of_nat (length broken) = Z.of_nat (size links)
    ∧ 0 ≤ ok
    ∧ ∀ l reason, (l, reason) ∈ broken → l ∈ links.
Proof.
  intros Hesc Hv Hg Hne.
  destruct (main_scan w base_url st st1 links Hesc Hv Hg Hne)
    as (tr & broken & ok & Hm & Hsum & Hok & Hb & _).
  by exists tr, broken, ok.
Qed.

Lemma report_adds_up_witness :
  ∃ tr broken ok,
    main scenario1 site initial_state =
      (Ok tt,
       mkState (scenario1_set ∪ ∅)
         (trace scenario1_fetched ++ found_log (size scenario1_set) :: tr
          ++ map Print (report_lines site (size scenario1_set) ok broken)
          ++ [done_log]))
    ∧ ok + Z.of_nat (length broken) = Z.of_nat (size scenario1_set)
    ∧ 0 ≤ ok
    ∧ ∀ l reason, (l, reason) ∈ broken → l ∈ scenario1_set.
Proof.
  apply (report_adds_up scenario1 site initial_state scenario1_fetched
           scenario1_set);
    [by intros tr u msg | vm_compute; reflexivity | vm_compute; reflexivity
    | nonempty_by_size].
Defined.

(** When no HEAD request lets an exception from outside the
    [RequestException] family escape, [main] prints, while probing, one
    progress line per link and nothing else: the lines are numbered 1
    to the total, in the order in which the set is iterated, and show
    the first 75 characters of the link. *)
Theorem progress_lines_numbered (w : World) (base_url : string)
    (st st1 : state) (links : gset string) :
  heads_never_escape w →
  is_valid_url w base_url = Ok true →
  get_all_links w base_url (started base_url st) = (Ok links, st1) →
  links ≠ ∅ →
  ∃ tr broken ok,
    main w base_url st =
      (Ok tt,
       mkState (links ∪ processed_urls st)
         (trace st1 ++ found_log (size links) :: tr
          ++ map Print (report_lines base_url (size links) ok broken)
          ++ [done_log]))
    ∧ List.filter is_print tr
      = imap (λ j link,
                Print ("  (" +:+ pretty (S j) +:+ "/" +:+ pretty (size links)
                       +:+ ") Memeriksa: " +:+ take 75 link +:+ "..."))
          (set_iter w links)
    ∧ length (List.filter is_print tr) = size links.
Proof.
  intros Hesc Hv Hg Hne.
  destruct (main_scan w base_url st st1 links Hesc Hv Hg Hne)
    as (tr & broken & ok & Hm & _ & _ & _ & Hp & _).
  exists tr, broken, ok. split; [done|]. split; [exact Hp|].
  by rewrite Hp, length_imap, set_iter_length.
Qed.

Lemma progress_lines_numbered_witness :
  ∃ tr broken ok,
    main scenario1 site initial_state =
      (Ok tt,
       mkState (scenario1_set ∪ ∅)
         (trace scenario1_fetched ++ found_log (size scenario1_set) :: tr
          ++ map Print (report_lines site (size scenario1_set) ok broken)
          ++ [done_log]))
    ∧ List.filter is_print tr
      = imap (λ j link,
                Print ("  (" +:+ pretty (S j) +:+ "/"
                       +:+ pretty (size scenario1_set)
                       +:+ ") Memeriksa: " +:+ take 75 link +:+ "..."))
          (set_iter scenario1 scenario1_set)
    ∧ length (List.filter is_print tr) = size scenario1_set.
Proof.
  apply (progress_lines_numbered scenario1 site initial_state scenario1_fetched
           scenario1_set);
    [by intros tr u msg | vm_compute; reflexivity | vm_compute; reflexivity
    | nonempty_by_size].
Defined.

(** *** Where the requests of a scan go *)

Lemma in_printed (e : event) (lines : list string) :
  e ∈ map Print lines → is_print e = true.
Proof.
  intros Hin. apply list_elem_of_In, in_map_iff in Hin as (l & <- & _). done.
Qed.

(** An exception that leaves the probing loop leaves [main]. *)
Lemma main_probing_raises (w : World) (base_url : string)
    (st st1 st2 : state) (links : gset string) (m : string) :
  is_valid_url w base_url = Ok true →
  get_all_links w base_url (started base_url st) = (Ok links, st1) →
  links ≠ ∅ →
  probe_links w (size links) 0 (set_iter w links) [] 0
    (mkState (processed_urls st1) (trace st1 ++ [found_log (size links)]))
    = (ValueError m, st2) →
  main w base_url st = (ValueError m, st2).
Proof.
  intros Hv Hg Hne Hp. unfold main, bind at 1, lift. rewrite Hv. cbn [negb].
  unfold bind at 1, emit at 1. fold (started base_url st).
  unfold bind at 1. rewrite Hg. rewrite bool_decide_eq_false_2 by done.
  unfold bind at 1, emit at 1. fold (found_log (size links)).
  unfold bind at 1. by rewrite Hp.
Qed.

(** What one run of [main] adds to the trace: the HEAD requests go to
    URLs that passed [is_valid_url], the GET requests to the seed. *)
Lemma main_added_events (w : World) (base_url : string) (st : state) :
  ∃ ev,
    trace (main w base_url st).2 = trace st ++ ev
    ∧ Forall (λ e, (∀ u o, e = Head u o → is_valid_url w u = Ok true)
                   ∧ (∀ u o, e = Get u o → u = base_url)) ev.
Proof.
  set (good := λ e : event,
         (∀ u o, e = Head u o → is_valid_url w u = Ok true)
         ∧ (∀ u o, e = Get u o → u = base_url)).
  assert (∀ e, is_head e = false → is_get e = false → good e) as Hquiet.
  { intros e Hh Hg. split; intros u o ->; done. }
  assert (∀ o, good (Get base_url o)) as Hgood_get.
  { intros o. split; intros u x [=]; done. }
  assert (∀ lines, Forall good (map Print lines)) as Hprints.
  { intros lines. apply Forall_forall. intros e He.
    apply in_printed in He. by destruct e; try done; apply Hquiet. }
  assert (is_valid_url w base_url = Ok true ∨ is_valid_url w base_url ≠ Ok true)
    as [Hv|Hv] by (destruct (is_valid_url w base_url) as [[]|]; auto).
  2:{ destruct (main_not_valid w base_url st Hv) as [_ [Htr|Htr]].
      - exists []. rewrite app_nil_r. by split.
      - exists [invalid_url_error base_url]. split; [done|].
        repeat constructor; by intros. }
  destruct (get_all_links_trace w base_url (started base_url st))
    as (ev1 & Hst1 & Hev1).
  assert (Forall good ev1) as Hq.
  { destruct Hev1 as [->|[x ->]]; repeat constructor; by intros. }
  destruct (get_all_links w base_url (started base_url st)) as [[links|m] st1]
    eqn:Hg; cbn [snd] in Hst1; subst st1.
  - destruct (decide (links = ∅)) as [->|Hne].
    + rewrite (main_no_links w base_url st _ Hv Hg). cbn [snd trace started].
      eexists. split; [by rewrite <- !app_assoc|]. cbn [app].
      apply Forall_cons. split; [by apply Hquiet|].
      apply Forall_cons. split; [apply Hgood_get|].
      apply Forall_app. split; [done|]. repeat constructor; by intros.
    + match type of Hg with _ = (_, ?s1) => set (st1 := s1) in * end.
      destruct (probe_links_any w (set_iter w links) (size links) 0 [] 0
                  (mkState (processed_urls st1)
                     (trace st1 ++ [found_log (size links)])))
        as (tr & Htr & Hhead & Hget).
      assert (Forall good tr) as Hgood_tr.
      { apply Forall_forall. intros e He. split; intros u o ->.
        - eapply links_to_check_valid; [by rewrite Hg|].
          by eapply (set_iter_elem w links u), Hhead.
        - by apply Hget in He. }
      destruct (probe_links w (size links) 0 (set_iter w links) [] 0
                  (mkState (processed_urls st1)
                     (trace st1 ++ [found_log (size links)])))
        as [[[broken ok]|m] st2] eqn:Hp; cbn [snd trace] in Htr.
      * rewrite (main_probing w base_url st st1 st2 links broken ok
                   Hv Hg Hne Hp).
        cbn [snd trace]. rewrite Htr. subst st1. cbn [trace started].
        eexists. split; [by rewrite <- !app_assoc|]. cbn [app].
        apply Forall_cons. split; [by apply Hquiet|].
        apply Forall_cons. split; [apply Hgood_get|].
        apply Forall_app. split; [done|].
        apply Forall_cons. split; [by apply Hquiet|].
        apply Forall_app. split; [done|].
        apply Forall_app. split; [apply Hprints|].
        repeat constructor; by intros.
      * rewrite (main_probing_raises w base_url st st1 st2 links m
                   Hv Hg Hne Hp).
        cbn [snd]. rewrite Htr. subst st1. cbn [trace started].
        eexists. split; [by rewrite <- !app_assoc|]. cbn [app].
        apply Forall_cons. split; [by apply Hquiet|].
        apply Forall_cons. split; [apply Hgood_get|].
        apply Forall_app. split; [done|].
        apply Forall_cons. split; [by apply Hquiet|]. done.
  - rewrite (main_extract_raises w base_url st _ m Hv Hg).
    cbn [snd trace started].
    eexists. split; [by rewrite <- !app_assoc|]. cbn [app].
    apply Forall_cons. split; [by apply Hquiet|].
    apply Forall_cons. split; [apply Hgood_get|]. done.
Qed.

(** In any run of [main], from any state and whatever the network
    answers, every HEAD request sent goes to a URL that passed
    [is_valid_url], and every GET request sent goes to the seed. *)
Theorem requests_go_to_seed_and_valid_links (w : World) (base_url : string)
    (st : state) :
  (∀ u o, Head u o ∈ trace (main w base_url st).2 →
          Head u o ∈ trace st ∨ is_valid_url w u = Ok true)
  ∧ (∀ u o, Get u o ∈ trace (main w base_url st).2 →
            Get u o ∈ trace st ∨ u = base_url).
Proof.
  destruct (main_added_events w base_url st) as (ev & -> & Hev).
  rewrite Forall_forall in Hev.
  split; intros u o [?|Hin]%elem_of_app; [by left| |by left|];
    right; by eapply (Hev _ Hin).
Qed.

(** *** Scans on a registry that already holds the links *)

Lemma probe_links_all_skipped (w : World) (links : list string) :
  ∀ (total i : nat) (broken : list (string * string)) (ok : Z) (st : state),
    (∀ l, l ∈ links → l ∈ processed_urls st) →
    probe_links w total i links broken ok st =
      (Ok (broken ++ map skip_entry links, ok),
       mkState (processed_urls st)
         (trace st ++ skipped_events total i links)).
Proof.
  induction links as [|link rest IH]; intros total i broken ok st Hin.
  - cbn. unfold ret. rewrite !app_nil_r. by destruct st.
  - rewrite probe_links_skipped by (apply Hin; left).
    rewrite IH by (intros l Hl; apply Hin; by right).
    cbn [processed_urls trace map skipped_events].
    by rewrite <- !app_assoc.
Qed.

Lemma skipped_events_quiet (total : nat) (links : list string) :
  ∀ i, network_calls (skipped_events total i links) = [].
Proof. induction links as [|l ls IH]; intros i; cbn; [done|apply IH]. Qed.

Lemma main_registry (w : World) (base_url : string) (st st1 : state)
    (links : gset string) :
  heads_never_escape w →
  is_valid_url w base_url = Ok true →
  get_all_links w base_url (started base_url st) = (Ok links, st1) →
  processed_urls (main w base_url st).2 = links ∪ processed_urls st.
Proof.
  intros Hesc Hv Hg. destruct (decide (links = ∅)) as [->|Hne].
  - rewrite (main_no_links w base_url st st1 Hv Hg). cbn [snd processed_urls].
    pose proof (get_all_links_registry w base_url (started base_url st)) as H.
    rewrite Hg in H. cbn in H. by rewrite H, (left_id_L ∅ (∪)).
  - destruct (main_scan w base_url st st1 links Hesc Hv Hg Hne)
      as (tr & broken & ok & -> & _). done.
Qed.

(** The registry after a scan in which no HEAD request lets an
    exception from outside the [RequestException] family escape:
    exactly the links found are added to it, whether their probes were
    answered, failed with a [RequestException] or were skipped. *)
Theorem scan_marks_links (w : World) (base_url : string) (st st1 : state)
    (links : gset string) :
  heads_never_escape w →
  is_valid_url w base_url = Ok true →
  get_all_links w base_url (started base_url st) = (Ok links, st1) →
  processed_urls (main w base_url st).2 = links ∪ processed_urls st.
Proof. apply main_registry. Qed.

Lemma scan_marks_links_witness :
  processed_urls (main scenario1 site initial_state).2 = scenario1_set ∪ ∅.
Proof.
  apply (scan_marks_links scenario1 site initial_state scenario1_fetched
           scenario1_set);
    [by intros tr u msg | vm_compute; reflexivity | vm_compute; reflexivity].
Defined.

Lemma main_all_marked (w : World) (base_url : string)
    (st st1 : state) (links : gset string) :
  is_valid_url w base_url = Ok true →
  get_all_links w base_url (started base_url st) = (Ok links, st1) →
  links ≠ ∅ →
  links ⊆ processed_urls st →
  main w base_url st =
    (Ok tt,
     mkState (processed_urls st)
       (trace st1 ++ found_log (size links)
        :: skipped_events (size links) 0 (set_iter w links)
        ++ map Print
             (report_lines base_url (size links) 0
                (map skip_entry (set_iter w links)))
        ++ [done_log]))
  ∧ network_calls (skipped_events (size links) 0 (set_iter w links)) = []
  ∧ length (map skip_entry (set_iter w links)) = size links.
Proof.
  intros Hv Hg Hne Hsub.
  assert (processed_urls st1 = processed_urls st) as Hreg.
  { pose proof (get_all_links_registry w base_url (started base_url st)) as H.
    by rewrite Hg in H. }
  split; [|split; [apply skipped_events_quiet
                  |by rewrite length_map, set_iter_length]].
  erewrite main_probing; [|done|exact Hg|done|].
  2:{ rewrite probe_links_all_skipped; [reflexivity|].
      intros l Hl. cbn [processed_urls]. rewrite Hreg.
      apply Hsub. by apply (set_iter_elem w links l). }
  cbn [processed_urls trace app]. rewrite Hreg. by rewrite <- !app_assoc.
Qed.

(** When every link found is already in [processed_urls], the scan
    sends no HEAD request at all, and its report counts no working link
    and lists every link as broken with the skip message as reason. *)
Theorem marked_links_all_reported_broken (w : World) (base_url : string)
    (st st1 : state) (links : gset string) :
  is_valid_url w base_url = Ok true →
  get_all_links w base_url (started base_url st) = (Ok links, st1) →
  links ≠ ∅ →
  links ⊆ processed_urls st →
  main w base_url st =
    (Ok tt,
     mkState (processed_urls st)
       (trace st1 ++ found_log (size links)
        :: skipped_events (size links) 0 (set_iter w links)
        ++ map Print
             (report_lines base_url (size links) 0
                (map skip_entry (set_iter w links)))
        ++ [done_log]))
  ∧ network_calls (skipped_events (size links) 0 (set_iter w links)) = []
  ∧ length (map skip_entry (set_iter w links)) = size links.
Proof. apply main_all_marked. Qed.

Lemma marked_links_all_reported_broken_witness :
  main (one_link (page 200 "https://site.test/a")) site
    (mkState {[ "https://site.test/a" ]} [])
  = (Ok tt,
     mkState {[ "https://site.test/a" ]}
       (trace scenario1_fetched
        ++ found_log 1
        :: [progress_line 1 0 "https://site.test/a";
            broken_log "https://site.test/a" skip_message]
        ++ map Print
             (report_lines site 1 0 [skip_entry "https://site.test/a"])
        ++ [done_log])).
Proof.
  destruct (marked_links_all_reported_broken
              (one_link (page 200 "https://site.test/a")) site
              (mkState {[ "https://site.test/a" ]} [])
              (mkState {[ "https://site.test/a" ]} (trace scenario1_fetched))
              {[ "https://site.test/a" ]}) as [Hmain _];
    [vm_compute; reflexivity | vm_compute; reflexivity | nonempty_by_size
    | reflexivity |].
  rewrite Hmain. vm_compute. reflexivity.
Defined.

(** Two scans in one interpreter, in a world where no HEAD request
    lets an exception from outside the [RequestException] family escape
    (so that the first scan visits all its links): when the second scan
    finds only links that the first one found, it sends nothing but its
    GET, and reports each of its links as broken with the skip
    message. *)
Theorem second_scan_probes_nothing (w : World) (base_url : string)
    (st st1 st2 : state) (links1 links2 : gset string) :
  heads_never_escape w →
  is_valid_url w base_url = Ok true →
  get_all_links w base_url (started base_url st) = (Ok links1, st1) →
  get_all_links w base_url (started base_url (main w base_url st).2)
    = (Ok links2, st2) →
  links2 ≠ ∅ →
  links2 ⊆ links1 →
  main w base_url (main w base_url st).2 =
    (Ok tt,
     mkState (links1 ∪ processed_urls st)
       (trace st2 ++ found_log (size links2)
        :: skipped_events (size links2) 0 (set_iter w links2)
        ++ map Print
             (report_lines base_url (size links2) 0
                (map skip_entry (set_iter w links2)))
        ++ [done_log]))
  ∧ network_calls (trace (main w base_url (main w base_url st).2).2)
    = network_calls (trace (main w base_url st).2)
      ++ [Get base_url
            (requests_get w
               (trace (started base_url (main w base_url st).2)) base_url)].
Proof.
  intros Hesc Hv Hg1 Hg2 Hne Hsub.
  pose proof (main_registry w base_url st st1 links1 Hesc Hv Hg1) as Hreg.
  destruct (main_all_marked w base_url
              (main w base_url st).2 st2 links2 Hv Hg2 Hne)
    as (Hm & Hq & _).
  { rewrite Hreg. by apply union_subseteq_l'. }
  rewrite Hm, Hreg. split; [done|]. cbn [snd trace].
  destruct (get_all_links_trace w base_url
              (started base_url (main w base_url st).2)) as (ev & Hst2 & Hev).
  rewrite Hg2 in Hst2. cbn [snd] in Hst2.
  assert (network_calls (trace st2)
          = network_calls (trace (started base_url (main w base_url st).2))
            ++ [Get base_url
                  (requests_get w
                     (trace (started base_url (main w base_url st).2))
                     base_url)]) as Hnet.
  { rewrite Hst2. cbn [trace]. rewrite network_calls_app.
    destruct Hev as [->|[e ->]]; reflexivity. }
  rewrite network_calls_app, Hnet. cbn [started trace].
  rewrite (network_calls_app (trace (main w base_url st).2)).
  cbn [network_calls List.filter is_network found_log app].
  rewrite !network_calls_app, Hq.
  assert (network_calls
            (map Print (report_lines base_url (size links2) 0
                          (map skip_entry (set_iter w links2)))) = []) as ->.
  { apply filter_none. intros e He. apply in_printed in He. by destruct e. }
  cbn. by rewrite !app_nil_r.
Qed.

Lemma second_scan_probes_nothing_witness :
  network_calls
    (trace (main scenario1 site (main scenario1 site initial_state).2).2)
  = network_calls (trace (main scenario1 site initial_state).2)
    ++ [Get site (page 200 site)].
Proof.
  apply (proj2 (second_scan_probes_nothing scenario1 site initial_state
                  scenario1_fetched
                  (get_all_links scenario1 site
                     (started site (main scenario1 site initial_state).2)).2
                  scenario1_set scenario1_set
                  ltac:(by intros tr u msg)
                  ltac:(vm_compute; reflexivity)
                  ltac:(vm_compute; reflexivity)
                  ltac:(vm_compute; reflexivity)
                  ltac:(nonempty_by_size)
                  ltac:(reflexivity))).
Defined.

(** *** No false alarm in a scan on unmarked links *)

Lemma head_count_pos (l : string) (o : outcome) (tr : list event) :
  Head l o ∈ tr → (0 < head_count l tr)%nat.
Proof.
  induction tr as [|e tr IH]; [by intros ?%elem_of_nil|].
  intros [<-|Hin]%elem_of_cons.
  - cbn. rewrite String.eqb_refl. lia.
  - specialize (IH Hin). destruct e; cbn; lia.
Qed.

Lemma head_count_unique (l : string) (o o' : outcome) (tr : list event) :
  head_count l tr = 1%nat → Head l o ∈ tr → Head l o' ∈ tr → o = o'.
Proof.
  induction tr as [|e tr IH]; [by intros _ ?%elem_of_nil|].
  intros Hc [Heq|Hin]%elem_of_cons [Heq'|Hin']%elem_of_cons.
  - congruence.
  - subst e. apply head_count_pos in Hin'. cbn in Hc.
    rewrite String.eqb_refl in Hc. lia.
  - subst e. apply head_count_pos in Hin. cbn in Hc.
    rewrite String.eqb_refl in Hc. lia.
  - apply IH; [|done..]. pose proof (head_count_pos _ _ _ Hin) as Hpos.
    destruct e as [| t x | |]; cbn in Hc; try done.
    destruct (String.eqb t l); cbn in Hc; lia.
Qed.

(** In a scan whose links were not marked beforehand and in which no
    HEAD request lets an exception from outside the [RequestException]
    family escape, the broken-links list of the report is exact: every
    entry stands for a probe that was sent and failed, with the reason
    the report gives, every failed probe has its entry, and a link
    whose HEAD request was answered with a status below 400 is never
    listed. *)
Theorem broken_links_really_failed (w : World) (base_url : string)
    (st st1 : state) (links : gset string) :
  heads_never_escape w →
  is_valid_url w base_url = Ok true →
  get_all_links w base_url (started base_url st) = (Ok links, st1) →
  links ≠ ∅ →
  (∀ l, l ∈ links → l ∉ processed_urls st) →
  ∃ tr broken ok,
    main w base_url st =
      (Ok tt,
       mkState (links ∪ processed_urls st)
         (trace st1 ++ found_log (size links) :: tr
          ++ map Print (report_lines base_url (size links) ok broken)
          ++ [done_log]))
    ∧ (∀ l reason, (l, reason) ∈ broken →
         l ∈ links
         ∧ ∃ o, Head l o ∈ tr ∧ failure_reason o = Some reason)
    ∧ (∀ l, l ∈ links →
         head_count l tr = 1%nat
         ∧ ∃ o, Head l o ∈ tr
                ∧ ∀ reason, failure_reason o = Some reason →
                    (l, reason) ∈ broken
                    ∧ broken_line l reason
                        ∈ report_lines base_url (size links) ok broken)
    ∧ (∀ l r reason,
         Head l (Responded r) ∈ tr → status_code r < 400 →
         head_count l tr = 1%nat ∧ (l, reason) ∉ broken).
Proof.
  intros Hesc Hv Hg Hne Hfresh.
  assert (processed_urls st1 = processed_urls st) as Hreg.
  { pose proof (get_all_links_registry w base_url (started base_url st)) as H.
    by rewrite Hg in H. }
  destruct (probe_links_run w (set_iter w links) Hesc (size links) 0 [] 0
              (mkState (processed_urls st1)
                 (trace st1 ++ [found_log (size links)])))
    as (tr & broken & ok & Hrun & Hone & Hzero & Hfail & Honly).
  { rewrite (set_iter_perm w links). apply NoDup_elements. }
  { intros l Hl. cbn [processed_urls]. rewrite Hreg.
    apply Hfresh. by apply (set_iter_elem w links l). }
  assert (∀ l o, Head l o ∈ tr → l ∈ set_iter w links) as Hsent.
  { intros l o Hin. destruct (decide (l ∈ set_iter w links)) as [Hl|Hl]; [done|].
    apply head_count_pos in Hin. rewrite (Hzero l Hl) in Hin. lia. }
  exists tr, broken, ok. split; [|split; [|split]].
  - rewrite (main_probing w base_url st st1 _ links broken ok Hv Hg Hne Hrun).
    cbn [processed_urls trace]. rewrite set_iter_to_set, Hreg.
    by rewrite <- !app_assoc.
  - intros l reason Hin. destruct (Honly l reason Hin) as (o & Ho & Hr).
    split; [|by exists o]. by apply (set_iter_elem w links l), (Hsent l o).
  - intros l Hl. apply (set_iter_elem w links l) in Hl.
    split; [by apply Hone|].
    destruct (Hfail l Hl) as (o & Hin & Hrep).
    exists o. split; [done|]. intros reason Hr.
    split; [by apply Hrep|]. by apply broken_line_reported, Hrep.
  - intros l r reason Hin Hs.
    pose proof (Hone l (Hsent _ _ Hin)) as Hc. split; [done|].
    intros Hb. destruct (Honly l reason Hb) as (o & Ho & Hr).
    rewrite <- (head_count_unique l _ _ tr Hc Hin Ho) in Hr. cbn in Hr.
    by rewrite (proj2 (Z.leb_gt 400 (status_code r))) in Hr by lia.
Qed.

Lemma broken_links_really_failed_witness :
  ∃ tr broken ok,
    main (one_link (Raised (mkExn ReadTimeout "Read timed out."))) site
      initial_state =
      (Ok tt,
       mkState ({[ "https://site.test/a" ]} ∪ ∅)
         (trace scenario1_fetched
          ++ found_log (size ({[ "https://site.test/a" ]} : gset string))
          :: tr
          ++ map Print
               (report_lines site
                  (size ({[ "https://site.test/a" ]} : gset string))
                  ok broken)
          ++ [done_log]))
    ∧ (∀ l reason, (l, reason) ∈ broken →
         l ∈ ({[ "https://site.test/a" ]} : gset string)
         ∧ ∃ o, Head l o ∈ tr ∧ failure_reason o = Some reason)
    ∧ (∀ l, l ∈ ({[ "https://site.test/a" ]} : gset string) →
         head_count l tr = 1%nat
         ∧ ∃ o, Head l o ∈ tr
                ∧ ∀ reason, failure_reason o = Some reason →
                    (l, reason) ∈ broken
                    ∧ broken_line l reason
                        ∈ report_lines site
                            (size ({[ "https://site.test/a" ]} : gset string))
                            ok broken)
    ∧ (∀ l r reason,
         Head l (Responded r) ∈ tr → status_code r < 400 →
         head_count l tr = 1%nat ∧ (l, reason) ∉ broken).
Proof.
  apply (broken_links_really_failed
           (one_link (Raised (mkExn ReadTimeout "Read timed out."))) site
           initial_state scenario1_fetched {[ "https://site.test/a" ]});
    [by intros tr u msg | vm_compute; reflexivity | vm_compute; reflexivity
    | nonempty_by_size | intros l _; apply not_elem_of_empty].
Defined.

End LinkChecker.
